(** * Motor BLE controller: the telemetry decoder and the command sender

    A shallow embedding of
    - the telemetry parser ([@/lib/telemetry-parser], the second module
      in [src/client/src/components/DebugConsole.tsx]): [parseTelemetry],
      [isValidTelemetryFormat] and the class [TelemetryStreamParser];
    - [createTestTelemetry] of the same module, with [Number::toFixed];
    - [src/client/src/pages/FanController.tsx]: [addDebugMessage],
      [sendCommand] and the other handlers of the page component
      ([connectBluetooth], [startReading], [handleCharacteristicChange],
      [setMotorMode], [toggleAutoShutoff], [disconnectBluetooth],
      [clearDebugMessages]);
    - the class [NativeBluetoothService] and its IPC handlers
      ([src/unnamed/part_000]).

    JavaScript strings are sequences of UTF-16 code units and are embedded
    as lists of code units.  JavaScript numbers are IEEE 754 binary64
    values and are embedded as [spec_float] at precision 53, with the
    operations of the standard library's executable specification
    ([SFmul], [SFdiv], [SFcompare]).  [Date.now()] is read from a clock
    passed as an argument, and the two platform services the code calls,
    [TextDecoder] and the characteristic's [writeValue], are arguments as
    well. *)

From Stdlib Require Import List NArith ZArith Bool Lia Ascii String.
From Stdlib Require Import DecimalString DecimalNat.
From Stdlib Require Import SpecFloat.
Import ListNotations.

Local Open Scope N_scope.

(* ================================================================== *)
(** * Part I. The embedding                                            *)
(* ================================================================== *)

(** ** Strings *)

Module JsString.

(** A UTF-16 code unit. *)
Definition code_unit := N.

(** A JavaScript string value. *)
Definition jsstring := list code_unit.

(** The string written by an ASCII literal of the source. *)
Definition js (s : string) : jsstring :=
  map N_of_ascii (list_ascii_of_string s).

(** The code unit of an ASCII character of the source. *)
Definition cu (c : ascii) : code_unit := N_of_ascii c.

(** The decimal text of a counter, as a template literal prints it. *)
Definition decimal (n : nat) : jsstring :=
  js (NilEmpty.string_of_uint (Nat.to_uint n)).

(** ["\n"] *)
Definition LF : code_unit := 10.

Definition between (lo hi c : code_unit) : bool := (lo <=? c) && (c <=? hi).

(** ECMAScript [WhiteSpace] and [LineTerminator] code points: what
    [String.prototype.trim] strips and what [\s] matches. *)
Definition WhiteSpace (c : code_unit) : bool :=
  between 9 13 c            (* TAB, LF, VT, FF, CR *)
  || (c =? 32)              (* SP *)
  || (c =? 160)             (* NBSP *)
  || (c =? 5760)            (* U+1680 *)
  || between 8192 8202 c    (* U+2000 .. U+200A *)
  || (c =? 8232)            (* U+2028 LS *)
  || (c =? 8233)            (* U+2029 PS *)
  || (c =? 8239)            (* U+202F *)
  || (c =? 8287)            (* U+205F *)
  || (c =? 12288)           (* U+3000 *)
  || (c =? 65279).          (* U+FEFF *)

(** [\d] *)
Definition Digit (c : code_unit) : bool := between 48 57 c.

(** [[\d.]] *)
Definition DigitOrDot (c : code_unit) : bool := Digit c || (c =? cu ".").

(** [\w]: [A-Za-z0-9_] *)
Definition WordChar (c : code_unit) : bool :=
  between 65 90 c || between 97 122 c || Digit c || (c =? 95).

Fixpoint trimStart (s : jsstring) : jsstring :=
  match s with
  | c :: s' => if WhiteSpace c then trimStart s' else s
  | [] => []
  end.

Definition trimEnd (s : jsstring) : jsstring := rev (trimStart (rev s)).

(** [String.prototype.trim] *)
Definition trim (s : jsstring) : jsstring := trimEnd (trimStart s).

(** [s.split(sep)] for a separator of one code unit.  The result is
    never empty: a string without separator is its own single segment. *)
Fixpoint split (sep : code_unit) (s : jsstring) : list jsstring :=
  match s with
  | [] => [[]]
  | c :: s' =>
      if c =? sep then [] :: split sep s'
      else match split sep s' with
           | seg :: segs => (c :: seg) :: segs
           | [] => [[c]]
           end
  end.

(** [Array.prototype.includes] on an array of strings. *)
Definition includes (xs : list jsstring) (x : jsstring) : bool :=
  existsb (fun y => if list_eq_dec N.eq_dec y x then true else false) xs.

Fixpoint startsWith (prefix s : jsstring) : bool :=
  match prefix, s with
  | [], _ => true
  | p :: prefix', c :: s' => (p =? c) && startsWith prefix' s'
  | _ :: _, [] => false
  end.

(** The longest prefix of [s] whose code units satisfy [p], and the rest. *)
Fixpoint span (p : code_unit -> bool) (s : jsstring) : jsstring * jsstring :=
  match s with
  | c :: s' =>
      if p c then let '(a, b) := span p s' in (c :: a, b) else ([], s)
  | [] => ([], [])
  end.

(** [stops p s]: a run of [p] cannot be extended into [s]. *)
Definition stops (p : code_unit -> bool) (s : jsstring) : Prop :=
  match s with
  | [] => True
  | c :: _ => p c = false
  end.

End JsString.

Export JsString.

(** ** Regular expressions *)

Module RegExp.

(** The fragment of the pattern language the telemetry pattern is
    written in: pattern characters, character sets ([\s], [\w], [\d],
    [[\d.]]), the greedy quantifiers [*] and [+] on such atoms,
    sequencing and capturing groups. *)
Inductive Atom :=
| PatternChar (c : code_unit)
| CharSet (p : code_unit -> bool).

Inductive Regex :=
| Empty
| One (a : Atom)
| Star (a : Atom)
| Plus (a : Atom)
| Seq (r1 r2 : Regex)
| Group (n : nat) (r : Regex).

(** [Canonicalize(ch)] without the [u] flag: with [ignoreCase] the code
    unit is mapped to upper case.  A code unit from 128 on is never
    mapped below 128 (ECMAScript leaves it unchanged in that case), and
    that is all a comparison with an ASCII pattern character observes,
    so such code units are left as they are. *)
Definition Canonicalize (ignoreCase : bool) (ch : code_unit) : code_unit :=
  if ignoreCase && between 97 122 ch then ch - 32 else ch.

(** Case folding does not change the sets [\s], [\d], [\w] and [[\d.]]:
    they are closed under ASCII case and no other code unit is mapped
    into them. *)
Definition atom_matches (ignoreCase : bool) (a : Atom) (ch : code_unit) : bool :=
  match a with
  | PatternChar c => Canonicalize ignoreCase ch =? Canonicalize ignoreCase c
  | CharSet p => p ch
  end.

(** Capture [i] is [None] while group [i] is [undefined]. *)
Definition Captures := list (option jsstring).

Fixpoint set_capture (i : nat) (v : jsstring) (caps : Captures) : Captures :=
  match i, caps with
  | O, _ :: caps' => Some v :: caps'
  | S i', c :: caps' => c :: set_capture i' v caps'
  | _, [] => []
  end.

(** The text between the input position [s] and the later position [s']. *)
Definition consumed (s s' : jsstring) : jsstring :=
  firstn (List.length s - List.length s') s.

Section Matcher.
Variable ignoreCase : bool.
Context {R : Type}.

(** Greedy repetition: as many code units as possible, giving one back
    each time the continuation fails. *)
Fixpoint greedy (p : code_unit -> bool) (s : jsstring)
         (k : jsstring -> option R) : option R :=
  match s with
  | c :: s' =>
      if p c then
        match greedy p s' k with
        | Some r => Some r
        | None => k s
        end
      else k s
  | [] => k []
  end.

(** The backtracking matcher, in continuation-passing style as in the
    ECMAScript specification: [s] is the input from the current
    position on. *)
Fixpoint matcher (r : Regex) (s : jsstring) (caps : Captures)
         (k : jsstring -> Captures -> option R) : option R :=
  match r with
  | Empty => k s caps
  | One a =>
      match s with
      | c :: s' => if atom_matches ignoreCase a c then k s' caps else None
      | [] => None
      end
  | Star a => greedy (atom_matches ignoreCase a) s (fun s' => k s' caps)
  | Plus a =>
      match s with
      | c :: s' =>
          if atom_matches ignoreCase a c
          then greedy (atom_matches ignoreCase a) s' (fun s'' => k s'' caps)
          else None
      | [] => None
      end
  | Seq r1 r2 => matcher r1 s caps (fun s' caps' => matcher r2 s' caps' k)
  | Group n r0 =>
      matcher r0 s caps
        (fun s' caps' => k s' (set_capture n (consumed s s') caps'))
  end.
End Matcher.

Record RegExpObject := {
  source : Regex;
  ngroups : nat;
  ignoreCase : bool
}.

(** One attempt at the current position; entry 0 of the result is the
    whole match. *)
Definition match_here (re : RegExpObject) (s : jsstring) : option Captures :=
  matcher (ignoreCase re) (Group 0 (source re)) s
    (repeat None (S (ngroups re)))
    (fun _ caps => Some caps).

(** [str.match(re)] for a regular expression without the [g] flag: the
    match at the leftmost position where an attempt succeeds, [None]
    for [null]. *)
Fixpoint String_match (re : RegExpObject) (s : jsstring) : option Captures :=
  match match_here re s with
  | Some caps => Some caps
  | None =>
      match s with
      | _ :: s' => String_match re s'
      | [] => None
      end
  end.

(** [m[i]] *)
Definition capture (m : Captures) (i : nat) : option jsstring :=
  nth i m None.

(** A run of pattern characters. *)
Fixpoint lit (s : jsstring) : Regex :=
  match s with
  | [] => Empty
  | c :: s' => Seq (One (PatternChar c)) (lit s')
  end.

Fixpoint seq (rs : list Regex) : Regex :=
  match rs with
  | [] => Empty
  | r :: rs' => Seq r (seq rs')
  end.

End RegExp.

Export RegExp.

(** ** Numbers *)

Module JsNumber.

Local Open Scope Z_scope.

(** The Number type: IEEE 754 binary64. *)
Definition number := spec_float.

Definition prec : Z := 53.
Definition emax : Z := 1024.

Definition NaN : number := S754_nan.

(** The Number value of an integer literal of the source ([0], [25],
    [60], ...). *)
Definition of_Z (z : Z) : number := binary_normalize prec emax z 0 false.

(** The Number value of [(-1)^neg * m * 10^e] for [m >= 0]: rounded to
    nearest, ties to even, as the engines that run this code do for
    decimal text of any length. *)
Definition of_decimal (neg : bool) (m e : Z) : number :=
  match m with
  | Zpos p =>
      match e with
      | Zneg k => SFdiv prec emax (S754_finite neg p 0)
                                  (S754_finite false (Pos.pow 10 k) 0)
      | Zpos k => binary_round prec emax neg (p * Pos.pow 10 k) 0
      | Z0 => binary_round prec emax neg p 0
      end
  | _ => S754_zero neg
  end.

(** [x * y] and [x / y] *)
Definition mul (x y : number) : number := SFmul prec emax x y.
Definition div (x y : number) : number := SFdiv prec emax x y.

(** [x < y] and [x > y]; both are [false] when an operand is [NaN]. *)
Definition lt (x y : number) : bool := SFltb x y.
Definition gt (x y : number) : bool := SFltb y x.

Definition isNaN (x : number) : bool :=
  match x with
  | S754_nan => true
  | _ => false
  end.

(** [Math.PI]: [0x1.921fb54442d18p+1]. *)
Definition Math_PI : number := S754_finite false 7074237752028440 (-51).

Definition digit_value (c : code_unit) : Z := Z.of_N (c - 48).

(** The mathematical value of a run of decimal digits. *)
Definition digits_value (ds : jsstring) : Z :=
  fold_left (fun acc c => 10 * acc + digit_value c) ds 0.

(** An optional sign: whether it is [-], and the rest. *)
Definition sign (s : jsstring) : bool * jsstring :=
  match s with
  | c :: s' =>
      if (c =? cu "-")%N then (true, s')
      else if (c =? cu "+")%N then (false, s')
      else (false, s)
  | [] => (false, [])
  end.

(** An [ExponentPart] at the head of [s], if there is a complete one. *)
Definition exponent (s : jsstring) : Z :=
  match s with
  | c :: s' =>
      if ((c =? cu "e") || (c =? cu "E"))%N then
        let '(neg, s'') := sign s' in
        let '(ds, _) := span Digit s'' in
        match ds with
        | [] => 0
        | _ => if neg then - digits_value ds else digits_value ds
        end
      else 0
  | [] => 0
  end.

(** The global [parseFloat]: the longest prefix of the trimmed input
    that is a [StrDecimalLiteral], [NaN] when there is none. *)
Definition parseFloat (input : jsstring) : number :=
  let '(neg, s) := sign (trimStart input) in
  if startsWith (js "Infinity") s then S754_infinity neg
  else
    let '(ip, r1) := span Digit s in
    let '(fp, r2) :=
      match r1 with
      | c :: r => if (c =? cu ".")%N then span Digit r else ([], r1)
      | [] => ([], [])
      end in
    match ip ++ fp with
    | [] => NaN
    | ds => of_decimal neg (digits_value ds)
              (exponent r2 - Z.of_nat (List.length fp))
    end.

(** The global [parseInt] with radix 10: the longest run of decimal
    digits after white space and an optional sign, [NaN] when there is
    none. *)
Definition parseInt10 (input : jsstring) : number :=
  let '(neg, s) := sign (trimStart input) in
  let '(ds, _) := span Digit s in
  match ds with
  | [] => NaN
  | _ => of_decimal neg (digits_value ds) 0
  end.

End JsNumber.

Export JsNumber.

(** ** The telemetry parser *)

Module Telemetry.

Record MotorTelemetry := {
  status : jsstring;             (* 'Running' | 'Stop' | 'Error' *)
  speed : number;                (* rad/sec *)
  rpm : number;                  (* calculated from speed *)
  anomalyPercentage : number;    (* 0-100% *)
  anomalyDetected : bool;        (* true if anomaly > 50% *)
  timestamp : Z
}.

(** [/Motor:\s*(\w+)\s+Speed:\s*([\d.]+)\s+Anomaly:\s*(\d+)%/i] *)
Definition telemetry_regex : RegExpObject :=
  {| source :=
       seq [ lit (js "Motor:"); Star (CharSet WhiteSpace);
             Group 1 (Plus (CharSet WordChar));
             Plus (CharSet WhiteSpace);
             lit (js "Speed:"); Star (CharSet WhiteSpace);
             Group 2 (Plus (CharSet DigitOrDot));
             Plus (CharSet WhiteSpace);
             lit (js "Anomaly:"); Star (CharSet WhiteSpace);
             Group 3 (Plus (CharSet Digit));
             One (PatternChar (cu "%")) ];
     ngroups := 3;
     ignoreCase := true |}.

Definition valid_statuses : list jsstring :=
  [js "Running"; js "Stop"; js "Error"].

(** [parseTelemetry(message)]; [now] is what [Date.now()] returns if the
    call reaches it.  [None] is [null].  Nothing in the body throws, so
    the [catch] branch is not reached; the [console.warn] calls are not
    part of the model. *)
Definition parseTelemetry (now : Z) (message : jsstring) : option MotorTelemetry :=
  let line := trim message in
  match String_match telemetry_regex line with
  | None => None
  | Some m =>
      match capture m 1, capture m 2, capture m 3 with
      | Some status, Some m2, Some m3 =>
          let speed := parseFloat m2 in
          let anomalyPercentage := parseInt10 m3 in
          if negb (includes valid_statuses status) then None
          else if isNaN speed || lt speed (of_Z 0) || gt speed (of_Z 25) then None
          else if isNaN anomalyPercentage
                  || lt anomalyPercentage (of_Z 0)
                  || gt anomalyPercentage (of_Z 100) then None
          else
            let rpm := div (mul speed (of_Z 60)) (mul (of_Z 2) Math_PI) in
            let anomalyDetected := gt anomalyPercentage (of_Z 50) in
            Some {| status := status;
                    speed := speed;
                    rpm := rpm;
                    anomalyPercentage := anomalyPercentage;
                    anomalyDetected := anomalyDetected;
                    timestamp := now |}
      | _, _, _ => None   (* an undefined group fails the status check *)
      end
  end.

(** [isValidTelemetryFormat(message)] *)
Definition isValidTelemetryFormat (message : jsstring) : bool :=
  match String_match telemetry_regex (trim message) with
  | Some _ => true
  | None => false
  end.

(** The five decoded fields of a record, without its time stamp. *)
Definition reading (t : MotorTelemetry)
  : jsstring * number * number * number * bool :=
  (status t, speed t, rpm t, anomalyPercentage t, anomalyDetected t).

(** *** [class TelemetryStreamParser] *)

Record TelemetryStreamParser := { buffer : jsstring }.

(** [new TelemetryStreamParser()] *)
Definition new_TelemetryStreamParser : TelemetryStreamParser :=
  {| buffer := [] |}.

Definition Uint8Array := list N.

(** The argument of [feed]: [string | Uint8Array]. *)
Inductive FeedData :=
| OfString (s : jsstring)
| OfBytes (b : Uint8Array).

(** The loop over the complete lines: [clock i] is what [Date.now()]
    returns during iteration [i]. *)
Fixpoint parse_lines (clock : nat -> Z) (i : nat) (lines : list jsstring)
  : list MotorTelemetry :=
  match lines with
  | [] => []
  | line :: rest =>
      match parseTelemetry (clock i) line with
      | Some telemetry => telemetry :: parse_lines clock (S i) rest
      | None => parse_lines clock (S i) rest
      end
  end.

Section Feed.
(** [new TextDecoder().decode]: the platform's UTF-8 decoder. *)
Variable TextDecoder_decode : Uint8Array -> jsstring.

(** [feed(data)]: the frames returned and the parser afterwards. *)
Definition feed (clock : nat -> Z) (this : TelemetryStreamParser)
           (data : FeedData) : list MotorTelemetry * TelemetryStreamParser :=
  let str := match data with
             | OfString s => s
             | OfBytes b => TextDecoder_decode b
             end in
  let buffer1 := buffer this ++ str in
  let lines := split LF buffer1 in
  let this' := {| buffer := last lines [] |} in
  (parse_lines clock 0 (removelast lines), this').

(** Successive calls of [feed], one per chunk, each with the clock
    readings of its own call; the frames of all calls in order. *)
Fixpoint feed_all (this : TelemetryStreamParser)
         (calls : list ((nat -> Z) * FeedData))
  : list MotorTelemetry * TelemetryStreamParser :=
  match calls with
  | [] => ([], this)
  | (clock, data) :: calls' =>
      let '(frames, this1) := feed clock this data in
      let '(frames', this2) := feed_all this1 calls' in
      (frames ++ frames', this2)
  end.
End Feed.

(** Calls of [feed] whose chunks are all strings. *)
Definition string_calls (calls : list ((nat -> Z) * jsstring))
  : list ((nat -> Z) * FeedData) :=
  map (fun call => (fst call, OfString (snd call))) calls.

(** [reset()] *)
Definition reset (this : TelemetryStreamParser) : TelemetryStreamParser :=
  {| buffer := [] |}.

(** [getBuffer()] *)
Definition getBuffer (this : TelemetryStreamParser) : jsstring := buffer this.

(** The invariant of the buffer: it holds no line terminator. *)
Definition buffer_ok (this : TelemetryStreamParser) : Prop :=
  ~ In LF (buffer this).

End Telemetry.

Export Telemetry.

(** ** The debug console's message type *)

Module DebugConsole.

Inductive MessageType := sent | received.

(** [interface DebugMessage] *)
Record DebugMessage := {
  id : jsstring;
  timestamp : Z;
  type : MessageType;
  data : jsstring;
  raw : option Uint8Array
}.

End DebugConsole.

(** ** The command sender of the page component *)

Module FanController.

Import DebugConsole.

(** [new TextEncoder().encode(s)]: the UTF-8 encoding of a string, with
    U+FFFD (EF BF BD) for a surrogate that has no partner. *)
Fixpoint TextEncoder_encode (s : jsstring) : Uint8Array :=
  match s with
  | [] => []
  | c :: s' =>
      if c <? 128 then c :: TextEncoder_encode s'
      else if c <? 2048 then
        192 + c / 64 :: 128 + c mod 64 :: TextEncoder_encode s'
      else if between 55296 56319 c then          (* a lead surrogate *)
        match s' with
        | d :: s'' =>
            if between 56320 57343 d then          (* and its trail *)
              let cp := 65536 + (c - 55296) * 1024 + (d - 56320) in
              240 + cp / 262144 :: 128 + (cp / 4096) mod 64
                :: 128 + (cp / 64) mod 64 :: 128 + cp mod 64
                :: TextEncoder_encode s''
            else 239 :: 191 :: 189 :: TextEncoder_encode s'
        | [] => [239; 191; 189]
        end
      else if between 56320 57343 c then 239 :: 191 :: 189 :: TextEncoder_encode s'
      else
        224 + c / 4096 :: 128 + (c / 64) mod 64 :: 128 + c mod 64
          :: TextEncoder_encode s'
  end.

(** What a rejected promise or a [throw] carries. *)
Inductive Thrown :=
| ThrownError (message : jsstring)   (* [err instanceof Error] *)
| ThrownOther.

(** The BLE characteristic held in [characteristicRef]: the transport.
    [writeValue data] is [None] when the write is accepted and the
    rejection otherwise. *)
Record BluetoothRemoteGATTCharacteristic := {
  writeValue : Uint8Array -> option Thrown
}.

(** The state of the component that [sendCommand] reads and writes. *)
Record State := {
  connected : bool;
  error : option jsstring;
  debugMessages : list DebugMessage;
  characteristicRef : option BluetoothRemoteGATTCharacteristic;
  debugMessageIdRef : nat
}.

Definition setError (e : option jsstring) (st : State) : State :=
  {| connected := connected st;
     error := e;
     debugMessages := debugMessages st;
     characteristicRef := characteristicRef st;
     debugMessageIdRef := debugMessageIdRef st |}.

(** [prev.slice(-n)] *)
Definition slice_last {A} (n : nat) (prev : list A) : list A :=
  skipn (List.length prev - n) prev.

(** [addDebugMessage(type, data, raw)]: keeps the last 100 messages. *)
Definition addDebugMessage (now : Z) (ty : MessageType) (d : jsstring)
           (r : option Uint8Array) (st : State) : State :=
  let message :=
    {| id := js "msg-" ++ decimal (debugMessageIdRef st);
       timestamp := now;
       type := ty;
       data := d;
       raw := r |} in
  {| connected := connected st;
     error := error st;
     debugMessages := slice_last 99 (debugMessages st) ++ [message];
     characteristicRef := characteristicRef st;
     debugMessageIdRef := S (debugMessageIdRef st) |}.

(** [sendCommand(command)]: the state afterwards and the byte arrays
    handed to the transport's [writeValue] during the call, in order.
    The guard is [!characteristicRef.current || !connected]. *)
Definition sendCommand (now : Z) (command : jsstring) (st : State)
  : State * list Uint8Array :=
  match characteristicRef st with
  | Some characteristic =>
      if negb (connected st) then
        (setError (Some (js "Not connected to device")) st, [])
      else
        let data := TextEncoder_encode (command ++ [LF]) in
        let st1 := addDebugMessage now sent command None st in
        match writeValue characteristic data with
        | None => (st1, [data])
        | Some err =>
            let errorMsg :=
              match err with
              | ThrownError message => message
              | ThrownOther => js "Failed to send command"
              end in
            (setError (Some errorMsg) st1, [data])
        end
  | None => (setError (Some (js "Not connected to device")) st, [])
  end.

Inductive MotorMode := stop | low | high.

(** The command token [setMotorMode(mode)] sends. *)
Definition mode_command (mode : MotorMode) : jsstring :=
  match mode with
  | stop => js "M0"
  | low => js "M10"
  | high => js "M20"
  end.

(** The command token [toggleAutoShutoff] sends for the new state. *)
Definition autoShutoff_command (newState : bool) : jsstring :=
  if newState then js "AOFF1" else js "AOFF0".

(** The state the component starts in. *)
Definition initial_state : State :=
  {| connected := false;
     error := None;
     debugMessages := [];
     characteristicRef := None;
     debugMessageIdRef := 0 |}.

(** A characteristic that accepts every write, and the state after a
    connection to it. *)
Definition accepting : BluetoothRemoteGATTCharacteristic :=
  {| writeValue := fun _ => None |}.

Definition connected_state : State :=
  {| connected := true;
     error := None;
     debugMessages := [];
     characteristicRef := Some accepting;
     debugMessageIdRef := 0 |}.

(** The closed set of command tokens of the two callers. *)
Definition command_tokens : list jsstring :=
  [mode_command stop; mode_command low; mode_command high;
   autoShutoff_command true; autoShutoff_command false].

End FanController.

Export FanController.

(** ** The wire format *)

Module WireFormat.

(** One line of the wire format of the parser's header comment,
    [Motor: <status>  Speed: <speed> Anomaly: <percentage>%], cut into
    its labels, its tokens and the white space between them. *)
Record Line := {
  motor_label : jsstring;
  gap1 : jsstring;
  status_token : jsstring;
  gap2 : jsstring;
  speed_label : jsstring;
  gap3 : jsstring;
  speed_token : jsstring;
  gap4 : jsstring;
  anomaly_label : jsstring;
  gap5 : jsstring;
  percent_token : jsstring
}.

Definition text (l : Line) : jsstring :=
  motor_label l ++ gap1 l ++ status_token l ++ gap2 l
    ++ speed_label l ++ gap3 l ++ speed_token l ++ gap4 l
    ++ anomaly_label l ++ gap5 l ++ percent_token l ++ js "%".

Definition string_eqb (a b : jsstring) : bool :=
  if list_eq_dec N.eq_dec a b then true else false.

(** Equal up to the case of ASCII letters. *)
Definition same_letters (a b : jsstring) : bool :=
  string_eqb (map (Canonicalize true) a) (map (Canonicalize true) b).

(** A non-empty run of code units of one class. *)
Definition run (p : code_unit -> bool) (s : jsstring) : bool :=
  match s with
  | [] => false
  | _ => forallb p s
  end.

(** The labels are written in any letter case, the status is a word,
    the speed a run of digits and dots, the percentage a run of digits;
    white space is optional after a label and required before one. *)
Definition well_formed (l : Line) : bool :=
  same_letters (motor_label l) (js "Motor:")
  && forallb WhiteSpace (gap1 l)
  && run WordChar (status_token l)
  && run WhiteSpace (gap2 l)
  && same_letters (speed_label l) (js "Speed:")
  && forallb WhiteSpace (gap3 l)
  && run DigitOrDot (speed_token l)
  && run WhiteSpace (gap4 l)
  && same_letters (anomaly_label l) (js "Anomaly:")
  && forallb WhiteSpace (gap5 l)
  && run Digit (percent_token l).

(** The line with the canonical labels and the spacing of the firmware. *)
Definition canonical (st sp pc : jsstring) : Line :=
  {| motor_label := js "Motor:"; gap1 := js " "; status_token := st;
     gap2 := js "  "; speed_label := js "Speed:"; gap3 := js " ";
     speed_token := sp; gap4 := js " "; anomaly_label := js "Anomaly:";
     gap5 := js " "; percent_token := pc |}.

(** The speed token reads as a number in [0, 25]. *)
Definition speed_ok (tok : jsstring) : bool :=
  let v := parseFloat tok in
  negb (isNaN v || lt v (of_Z 0) || gt v (of_Z 25)).

(** The percent token reads as a number in [0, 100]. *)
Definition percent_ok (tok : jsstring) : bool :=
  let v := parseInt10 tok in
  negb (isNaN v || lt v (of_Z 0) || gt v (of_Z 100)).

(** The record of a line whose tokens pass the checks. *)
Definition decoded (now : Z) (st sp pc : jsstring) : MotorTelemetry :=
  {| status := st;
     speed := parseFloat sp;
     rpm := div (mul (parseFloat sp) (of_Z 60)) (mul (of_Z 2) Math_PI);
     anomalyPercentage := parseInt10 pc;
     anomalyDetected := gt (parseInt10 pc) (of_Z 50);
     timestamp := now |}.

(** What the three tokens of a matched line decode to. *)
Definition checked (now : Z) (st sp pc : jsstring) : option MotorTelemetry :=
  if includes valid_statuses st && speed_ok sp && percent_ok pc
  then Some (decoded now st sp pc)
  else None.

(** Whether an attempt of the telemetry pattern succeeds at a position
    inside [pre] of the line [pre ++ rest]. *)
Fixpoint matches_before (pre rest : jsstring) : bool :=
  match pre with
  | [] => false
  | _ :: pre' =>
      match match_here telemetry_regex (pre ++ rest) with
      | Some _ => true
      | None => matches_before pre' rest
      end
  end.

(** Lines the decoder must drop. *)
Definition rejection_set : list jsstring :=
  [ js "Motor: Walking Speed: 1.0 Anomaly: 0%";
    js "Motor: Running Speed: 30.0 Anomaly: 0%";
    js "Motor: Running Speed: 1.0 Anomaly: 150%";
    js "garbage" ].

End WireFormat.

Export WireFormat.

(** ** Printing numbers, and the test message *)

Module Formatting.

Local Open Scope Z_scope.

(** The decimal text of a non-negative integer. *)
Definition decimal_Z (n : Z) : jsstring :=
  js (NilEmpty.string_of_uint (N.to_uint (Z.to_N n))).

(** The integer a Number is, when it is one. *)
Definition integer_value (x : number) : option Z :=
  match x with
  | S754_zero _ => Some 0
  | S754_finite s m e =>
      match e with
      | Z0 => Some (cond_Zopp s (Zpos m))
      | Zneg k =>
          if Zpos m mod 2 ^ Zpos k =? 0
          then Some (cond_Zopp s (Zpos m / 2 ^ Zpos k))
          else None
      | Zpos _ => None
      end
  | _ => None
  end.

(** [n.toFixed(f)] for a finite [n] below 10^21: the integer nearest to
    [m * 2^e * 10^f], the larger one of two. *)
Definition scaled_round (f : nat) (m : positive) (e : Z) : Z :=
  let scaled := Zpos m * 10 ^ Z.of_nat f in
  match e with
  | Zneg k => (2 * scaled + 2 ^ Zpos k) / 2 ^ (Zpos k + 1)
  | _ => scaled * 2 ^ e
  end.

(** Whether [m * 2^e >= 10^21]. *)
Definition at_least_1e21 (m : positive) (e : Z) : bool :=
  match e with
  | Zneg k => 10 ^ 21 * 2 ^ Zpos k <=? Zpos m
  | _ => 10 ^ 21 <=? Zpos m * 2 ^ e
  end.

(** The digits of [n] with a dot before the last [f] of them, padded
    with zeros to at least one digit before the dot. *)
Definition fixed_text (f : nat) (n : Z) : jsstring :=
  let m := decimal_Z n in
  match f with
  | O => m
  | _ =>
      let k := List.length m in
      let m' := repeat (cu "0") (S f - k) ++ m in
      let k' := List.length m' in
      firstn (k' - f) m' ++ js "." ++ skipn (k' - f) m'
  end.

Section Platform.
(** [Number::toString] of the platform, asked only for the values the
    model does not print itself: non-integers and integers from 2^53. *)
Variable Number_toString : number -> jsstring.

(** [`${x}`] and [String(x)] for a Number. *)
Definition ToString (x : number) : jsstring :=
  match x with
  | S754_nan => js "NaN"
  | S754_infinity s => if s then js "-Infinity" else js "Infinity"
  | _ =>
      match integer_value x with
      | Some n =>
          if Z.abs n <? 2 ^ 53
          then (if n <? 0 then js "-" else []) ++ decimal_Z (Z.abs n)
          else Number_toString x
      | None => Number_toString x
      end
  end.

(** [x.toFixed(f)] *)
Definition toFixed (f : nat) (x : number) : jsstring :=
  match x with
  | S754_nan => js "NaN"
  | S754_infinity s => if s then js "-Infinity" else js "Infinity"
  | S754_zero _ => fixed_text f 0
  | S754_finite s m e =>
      (if s then js "-" else [])
        ++ (if at_least_1e21 m e
            then Number_toString (S754_finite false m e)
            else fixed_text f (scaled_round f m e))
  end.

(** [createTestTelemetry(status, speed, anomalyPercentage)] *)
Definition createTestTelemetry (status : jsstring) (speed : number)
           (anomalyPercentage : number) : jsstring :=
  js "Motor: " ++ status ++ js "  Speed: " ++ toFixed 2 speed
    ++ js " Anomaly: " ++ ToString anomalyPercentage ++ js "%" ++ [LF].

(** The call with its default arguments. *)
Definition createTestTelemetry_default : jsstring :=
  createTestTelemetry (js "Stop") (of_Z 0) (of_Z 0).
End Platform.

End Formatting.

(** ** The page component *)

Module Page.

Import DebugConsole.

(** [clearDebugMessages()] *)
Definition clearDebugMessages (st : State) : State :=
  {| connected := connected st;
     error := error st;
     debugMessages := [];
     characteristicRef := characteristicRef st;
     debugMessageIdRef := 0 |}.

(** The state of the component: the part [sendCommand] works on, and the
    rest. *)
Record Component := {
  core : State;
  currentMode : MotorMode;
  motorState : MotorTelemetry;
  connectionStatus : jsstring;
  autoShutoffEnabled : bool;
  readerRef : bool;              (* whether a reader is held *)
  telemetryParserRef : TelemetryStreamParser
}.

Definition with_core (c : Component) (st : State) : Component :=
  {| core := st;
     currentMode := currentMode c;
     motorState := motorState c;
     connectionStatus := connectionStatus c;
     autoShutoffEnabled := autoShutoffEnabled c;
     readerRef := readerRef c;
     telemetryParserRef := telemetryParserRef c |}.

(** The component as it is mounted, at clock reading [now]. *)
Definition mount (now : Z) : Component :=
  {| core := initial_state;
     currentMode := stop;
     motorState :=
       {| status := js "Stop"; speed := of_Z 0; rpm := of_Z 0;
          anomalyPercentage := of_Z 0; anomalyDetected := false;
          Telemetry.timestamp := now |};
     connectionStatus := js "Disconnected";
     autoShutoffEnabled := false;
     readerRef := false;
     telemetryParserRef := new_TelemetryStreamParser |}.

(** [setMotorMode(mode)] *)
Definition setMotorMode (now : Z) (mode : MotorMode) (c : Component)
  : Component * list Uint8Array :=
  let command := mode_command mode in
  let '(st, writes) := sendCommand now command (core c) in
  ({| core := st;
      currentMode := mode;
      motorState := motorState c;
      connectionStatus := connectionStatus c;
      autoShutoffEnabled := autoShutoffEnabled c;
      readerRef := readerRef c;
      telemetryParserRef := telemetryParserRef c |}, writes).

(** [toggleAutoShutoff()].  [sendCommand] catches every rejection
    itself and never throws, so the [catch] branch here is not reached
    and the flag is set after every call. *)
Definition toggleAutoShutoff (now : Z) (c : Component)
  : Component * list Uint8Array :=
  let newState := negb (autoShutoffEnabled c) in
  let command := autoShutoff_command newState in
  let '(st, writes) := sendCommand now command (core c) in
  ({| core := st;
      currentMode := currentMode c;
      motorState := motorState c;
      connectionStatus := connectionStatus c;
      autoShutoffEnabled := newState;
      readerRef := readerRef c;
      telemetryParserRef := telemetryParserRef c |}, writes).

(** The message of a [catch (err)]: [err instanceof Error ? err.message :
    fallback]. *)
Definition error_message (err : Thrown) (fallback : jsstring) : jsstring :=
  match err with
  | ThrownError message => message
  | ThrownOther => fallback
  end.

(** How the platform answers a connection attempt. *)
Inductive ConnectAttempt :=
| Refused (err : Thrown)
    (* [requestDevice], [gatt.connect], [getPrimaryService] or
       [getCharacteristic] rejects *)
| NotifyRefused (characteristic : BluetoothRemoteGATTCharacteristic) (err : Thrown)
    (* [startNotifications] rejects, after the characteristic is stored *)
| Established (characteristic : BluetoothRemoteGATTCharacteristic).

Definition connect_failed (err : Thrown)
           (ref : option BluetoothRemoteGATTCharacteristic) (c : Component)
  : Component :=
  {| core := {| connected := false;
                error := Some (error_message err (js "Connection failed"));
                debugMessages := debugMessages (core c);
                characteristicRef := ref;
                debugMessageIdRef := debugMessageIdRef (core c) |};
     currentMode := currentMode c;
     motorState := motorState c;
     connectionStatus := js "Disconnected";
     autoShutoffEnabled := autoShutoffEnabled c;
     readerRef := readerRef c;
     telemetryParserRef := telemetryParserRef c |}.

(** [connectBluetooth()], up to the call of [startReading]. *)
Definition connectBluetooth (attempt : ConnectAttempt) (c : Component)
  : Component :=
  match attempt with
  | Refused err => connect_failed err (characteristicRef (core c)) c
  | NotifyRefused characteristic err =>
      connect_failed err (Some characteristic) c
  | Established characteristic =>
      {| core := {| connected := true;
                    error := None;
                    debugMessages := debugMessages (core c);
                    characteristicRef := Some characteristic;
                    debugMessageIdRef := debugMessageIdRef (core c) |};
         currentMode := stop;
         motorState := motorState c;
         connectionStatus := js "Connected";
         autoShutoffEnabled := autoShutoffEnabled c;
         readerRef := readerRef c;
         telemetryParserRef := telemetryParserRef c |}
  end.

(** [disconnectBluetooth()]: [cancel] is the answer of [reader.cancel()]
    and [stopNotifications] that of the characteristic, each asked only
    if the reference is held; a rejection is logged and ends the call. *)
Definition disconnectBluetooth (cancel stopNotifications : option Thrown)
           (c : Component) : Component :=
  match (if readerRef c then cancel else None) with
  | Some _ => c
  | None =>
      match (match characteristicRef (core c) with
             | Some _ => stopNotifications
             | None => None
             end) with
      | Some _ => c
      | None =>
          {| core := {| connected := false;
                        error := error (core c);
                        debugMessages := debugMessages (core c);
                        characteristicRef := None;
                        debugMessageIdRef := debugMessageIdRef (core c) |};
             currentMode := currentMode c;
             motorState := motorState c;
             connectionStatus := js "Disconnected";
             autoShutoffEnabled := autoShutoffEnabled c;
             readerRef := false;
             telemetryParserRef := reset (telemetryParserRef c) |}
      end
  end.

(** [for (const telemetry of telemetryFrames) setMotorState(telemetry)] *)
Definition show_frames (frames : list MotorTelemetry) (shown : MotorTelemetry)
  : MotorTelemetry :=
  fold_left (fun _ telemetry => telemetry) frames shown.

(** The [DataView] of a notification: the bytes it shows and the bytes of
    the whole buffer under it. *)
Record DataView := {
  view_bytes : Uint8Array;
  buffer_bytes : Uint8Array
}.

Section Inbound.
Variable TextDecoder_decode : Uint8Array -> jsstring.

(** [handleCharacteristicChange(event)]; [now] is the clock reading of
    the debug message and [clock] that of the decoder's loop. *)
Definition handleCharacteristicChange (now : Z) (clock : nat -> Z)
           (value : option DataView) (c : Component) : Component :=
  match value with
  | None => c
  | Some value =>
      let rawData := buffer_bytes value in
      let dataStr := trim (TextDecoder_decode rawData) in
      let st := match dataStr with
                | [] => core c
                | _ => addDebugMessage now received dataStr (Some rawData) (core c)
                end in
      let '(telemetryFrames, parser) :=
        feed TextDecoder_decode clock (telemetryParserRef c)
             (OfBytes (view_bytes value)) in
      {| core := st;
         currentMode := currentMode c;
         motorState := show_frames telemetryFrames (motorState c);
         connectionStatus := connectionStatus c;
         autoShutoffEnabled := autoShutoffEnabled c;
         readerRef := readerRef c;
         telemetryParserRef := parser |}
  end.

(** The loop of [startReading(characteristic)] over the chunks the
    reader delivers before it is done or fails. *)
Fixpoint read_loop (chunks : list ((nat -> Z) * Uint8Array)) (c : Component)
  : Component :=
  match chunks with
  | [] => c
  | (clock, value) :: chunks' =>
      let '(telemetryFrames, parser) :=
        feed TextDecoder_decode clock (telemetryParserRef c) (OfBytes value) in
      read_loop chunks'
        {| core := core c;
           currentMode := currentMode c;
           motorState := show_frames telemetryFrames (motorState c);
           connectionStatus := connectionStatus c;
           autoShutoffEnabled := autoShutoffEnabled c;
           readerRef := readerRef c;
           telemetryParserRef := parser |}
  end.

(** [startReading(characteristic)]: nothing happens without a
    [readable] stream; otherwise the reader is held and the loop runs. *)
Definition startReading (readable : option (list ((nat -> Z) * Uint8Array)))
           (c : Component) : Component :=
  match readable with
  | None => c
  | Some chunks =>
      read_loop chunks
        {| core := core c;
           currentMode := currentMode c;
           motorState := motorState c;
           connectionStatus := connectionStatus c;
           autoShutoffEnabled := autoShutoffEnabled c;
           readerRef := true;
           telemetryParserRef := telemetryParserRef c |}
  end.
End Inbound.

(** The label under the anomaly percentage:
    [p < 30 ? 'Normal' : p < 70 ? 'Warning' : 'Critical']. *)
Definition anomaly_label_text (p : number) : jsstring :=
  if lt p (of_Z 30) then js "Normal"
  else if lt p (of_Z 70) then js "Warning"
  else js "Critical".

(** The identifier of the [n]-th debug message. *)
Definition message_id (n : nat) : jsstring := js "msg-" ++ decimal n.

(** Debug messages carry the identifiers of consecutive counter values,
    up to the counter. *)
Definition log_ok (st : State) : Prop :=
  exists first : nat,
    map id (debugMessages st)
    = map message_id (List.seq first (List.length (debugMessages st)))
    /\ (first + List.length (debugMessages st))%nat = debugMessageIdRef st.

(** A call of one of the component's handlers, with what the platform
    answers during it.  [call_read] is one more turn of the reading loop
    that [startReading] has begun. *)
Inductive Call :=
| call_connectBluetooth (attempt : ConnectAttempt)
    (readable : option (list ((nat -> Z) * Uint8Array)))
| call_read (clock : nat -> Z) (value : Uint8Array)
| call_handleCharacteristicChange (now : Z) (clock : nat -> Z)
    (value : option DataView)
| call_setMotorMode (now : Z) (mode : MotorMode)
| call_toggleAutoShutoff (now : Z)
| call_disconnectBluetooth (cancel stopNotifications : option Thrown)
| call_clearDebugMessages.

(** Whether a call is a connection attempt that the platform lets
    through. *)
Definition establishes (call : Call) : bool :=
  match call with
  | call_connectBluetooth (Established _) _ => true
  | _ => false
  end.

Section Calls.
Variable TextDecoder_decode : Uint8Array -> jsstring.

(** The component after a call, and the byte arrays handed to the
    transport during it.  [connectBluetooth] ends in [startReading] when
    the connection is established. *)
Definition handle (call : Call) (c : Component)
  : Component * list Uint8Array :=
  match call with
  | call_connectBluetooth attempt readable =>
      let c1 := connectBluetooth attempt c in
      (match attempt with
       | Established _ => startReading TextDecoder_decode readable c1
       | _ => c1
       end, [])
  | call_read clock value =>
      (read_loop TextDecoder_decode [(clock, value)] c, [])
  | call_handleCharacteristicChange now clock value =>
      (handleCharacteristicChange TextDecoder_decode now clock value c, [])
  | call_setMotorMode now mode => setMotorMode now mode c
  | call_toggleAutoShutoff now => toggleAutoShutoff now c
  | call_disconnectBluetooth cancel stopNotifications =>
      (disconnectBluetooth cancel stopNotifications c, [])
  | call_clearDebugMessages => (with_core c (clearDebugMessages (core c)), [])
  end.

(** Calls one after another: the component at the end and all the byte
    arrays written, in order. *)
Fixpoint run (calls : list Call) (c : Component)
  : Component * list Uint8Array :=
  match calls with
  | [] => (c, [])
  | call :: calls' =>
      let '(c1, writes1) := handle call c in
      let '(c2, writes2) := run calls' c1 in
      (c2, writes1 ++ writes2)
  end.
End Calls.

(** The state of the log: at most 100 messages, numbered consecutively
    up to the counter. *)
Definition core_ok (st : State) : Prop :=
  (List.length (debugMessages st) <= 100)%nat /\ log_ok st.

(** The label for an integer percentage. *)
Definition label_of (n : Z) : jsstring :=
  if (n <? 30)%Z then js "Normal"
  else if (n <? 70)%Z then js "Warning"
  else js "Critical".

(** What holds of a record the decoder accepts: a known status, a speed
    from 0 to 25, an integer percentage from 0 to 100, and the flag and
    the label that go with it. *)
Definition record_ok (r : MotorTelemetry) : Prop :=
  In (status r) valid_statuses
  /\ isNaN (speed r) = false
  /\ lt (speed r) (of_Z 0) = false
  /\ gt (speed r) (of_Z 25) = false
  /\ exists n : Z,
      (0 <= n <= 100)%Z
      /\ anomalyPercentage r = of_Z n
      /\ anomalyDetected r = (50 <? n)%Z
      /\ anomaly_label_text (anomalyPercentage r) = label_of n.

(** What holds of the component between calls. *)
Definition component_ok (c : Component) : Prop :=
  core_ok (core c)
  /\ (connected (core c) = true -> characteristicRef (core c) <> None)
  /\ connectionStatus c
     = (if connected (core c) then js "Connected" else js "Disconnected")
  /\ record_ok (motorState c).

(** The chunks of a reader as calls of [feed]. *)
Definition byte_calls (chunks : list ((nat -> Z) * Uint8Array))
  : list ((nat -> Z) * FeedData) :=
  map (fun chunk => (fst chunk, OfBytes (snd chunk))) chunks.

End Page.

(** ** The native Bluetooth service of the desktop shell *)

Module NativeBluetooth.

(** [interface BluetoothDevice] *)
Record BluetoothDevice := {
  id : jsstring;
  name : jsstring;
  rssi : Z
}.

(** A [Map<string, BluetoothDevice>]: its entries in insertion order. *)
Definition DeviceMap := list (jsstring * BluetoothDevice).

Definition string_eq_dec : forall a b : jsstring, {a = b} + {a <> b} :=
  list_eq_dec N.eq_dec.

(** [map.get(key)] *)
Fixpoint Map_get (m : DeviceMap) (key : jsstring) : option BluetoothDevice :=
  match m with
  | [] => None
  | (k, v) :: m' => if string_eq_dec k key then Some v else Map_get m' key
  end.

(** [map.set(key, value)]: a known key keeps its place. *)
Fixpoint Map_set (m : DeviceMap) (key : jsstring) (value : BluetoothDevice)
  : DeviceMap :=
  match m with
  | [] => [(key, value)]
  | (k, v) :: m' =>
      if string_eq_dec k key then (k, value) :: m'
      else (k, v) :: Map_set m' key value
  end.

(** [class NativeBluetoothService] *)
Record NativeBluetoothService := {
  isScanning : bool;
  connectedDevice : option BluetoothDevice;
  discoveredDevices : DeviceMap
}.

(** [new NativeBluetoothService()] *)
Definition new_service : NativeBluetoothService :=
  {| isScanning := false; connectedDevice := None; discoveredDevices := [] |}.

(** The outcome of a method that may throw an [Error]: the value, or the
    message of the error. *)
Inductive Outcome (A : Type) :=
| Returned (value : A)
| Thrown_ (message : jsstring).

Arguments Returned {A} value.
Arguments Thrown_ {A} message.

(** The device the mock discovery reports one second after a scan has
    started. *)
Definition mock_device : BluetoothDevice :=
  {| id := js "mock-device-001";
     name := js "Silicon Labs MG24 (Mock)";
     rssi := -50 |}.

(** [onDeviceDiscovered(device)] *)
Definition onDeviceDiscovered (device : BluetoothDevice)
           (this : NativeBluetoothService) : NativeBluetoothService :=
  {| isScanning := isScanning this;
     connectedDevice := connectedDevice this;
     discoveredDevices := Map_set (discoveredDevices this) (id device) device |}.

(** [startScan(serviceUuids)]: the service afterwards and whether the
    discovery timer was set. *)
Definition startScan (this : NativeBluetoothService)
  : NativeBluetoothService * bool :=
  if isScanning this then (this, false)
  else ({| isScanning := true;
           connectedDevice := connectedDevice this;
           discoveredDevices := [] |}, true).

(** The timer of [startScan] fires. *)
Definition discovery_timeout (this : NativeBluetoothService)
  : NativeBluetoothService :=
  onDeviceDiscovered mock_device this.

(** [stopScan()] *)
Definition stopScan (this : NativeBluetoothService) : NativeBluetoothService :=
  if isScanning this
  then {| isScanning := false;
          connectedDevice := connectedDevice this;
          discoveredDevices := discoveredDevices this |}
  else this.

(** [connect(deviceId)] *)
Definition connect (deviceId : jsstring) (this : NativeBluetoothService)
  : Outcome NativeBluetoothService :=
  match Map_get (discoveredDevices this) deviceId with
  | None => Thrown_ (js "Device " ++ deviceId ++ js " not found")
  | Some device =>
      Returned {| isScanning := isScanning this;
                  connectedDevice := Some device;
                  discoveredDevices := discoveredDevices this |}
  end.

(** [disconnect()] *)
Definition disconnect (this : NativeBluetoothService) : NativeBluetoothService :=
  match connectedDevice this with
  | None => this
  | Some _ =>
      {| isScanning := isScanning this;
         connectedDevice := None;
         discoveredDevices := discoveredDevices this |}
  end.

(** [writeCharacteristic(serviceUuid, characteristicUuid, data)] *)
Definition writeCharacteristic (serviceUuid characteristicUuid : jsstring)
           (data : Uint8Array) (this : NativeBluetoothService) : Outcome unit :=
  match connectedDevice this with
  | None => Thrown_ (js "Not connected to any device")
  | Some _ => Returned tt
  end.

(** [readCharacteristic(serviceUuid, characteristicUuid)]:
    [Buffer.alloc(0)] when connected. *)
Definition readCharacteristic (serviceUuid characteristicUuid : jsstring)
           (this : NativeBluetoothService) : Outcome Uint8Array :=
  match connectedDevice this with
  | None => Thrown_ (js "Not connected to any device")
  | Some _ => Returned []
  end.

(** [subscribeToNotifications(serviceUuid, characteristicUuid, callback)] *)
Definition subscribeToNotifications (serviceUuid characteristicUuid : jsstring)
           (this : NativeBluetoothService) : Outcome unit :=
  match connectedDevice this with
  | None => Thrown_ (js "Not connected to any device")
  | Some _ => Returned tt
  end.

(** [getDiscoveredDevices()] *)
Definition getDiscoveredDevices (this : NativeBluetoothService)
  : list BluetoothDevice :=
  map snd (discoveredDevices this).

(** [getConnectedDevice()] *)
Definition getConnectedDevice (this : NativeBluetoothService)
  : option BluetoothDevice :=
  connectedDevice this.

(** What an IPC handler answers: [{ success, error?, ... }]. *)
Record Reply (A : Type) := {
  success : bool;
  reply_error : option jsstring;
  payload : option A
}.

Arguments success {A} _.
Arguments reply_error {A} _.
Arguments payload {A} _.

Definition reply_of {A} (o : Outcome A) : Reply A :=
  match o with
  | Returned v => {| success := true; reply_error := None; payload := Some v |}
  | Thrown_ message =>
      {| success := false; reply_error := Some message; payload := None |}
  end.

(** The handler of ['bluetooth:connect']: the answer and the service. *)
Definition ipc_connect (deviceId : jsstring) (this : NativeBluetoothService)
  : Reply unit * NativeBluetoothService :=
  match connect deviceId this with
  | Returned this' => (reply_of (Returned tt), this')
  | Thrown_ message => (reply_of (Thrown_ message), this)
  end.

(** The handler of ['bluetooth:write-characteristic']. *)
Definition ipc_write (serviceUuid characteristicUuid : jsstring)
           (data : Uint8Array) (this : NativeBluetoothService) : Reply unit :=
  reply_of (writeCharacteristic serviceUuid characteristicUuid data this).

(** The handler of ['bluetooth:read-characteristic']. *)
Definition ipc_read (serviceUuid characteristicUuid : jsstring)
           (this : NativeBluetoothService) : Reply Uint8Array :=
  reply_of (readCharacteristic serviceUuid characteristicUuid this).

(** The handler of ['bluetooth:get-devices']. *)
Definition ipc_get_devices (this : NativeBluetoothService)
  : Reply (list BluetoothDevice) :=
  reply_of (Returned (getDiscoveredDevices this)).

(** The keys of the map are pairwise distinct. *)
Definition keys_distinct (m : DeviceMap) : Prop := NoDup (map fst m).

(** A call into the service: a method, or the discovery timer of an
    earlier [startScan] firing. *)
Inductive Call :=
| call_startScan
| call_timer
| call_stopScan
| call_connect (deviceId : jsstring)
| call_disconnect.

(** The service together with the number of discovery timers that have
    been set and have not fired. *)
Record Process := {
  service : NativeBluetoothService;
  timers : nat
}.

Definition new_process : Process :=
  {| service := new_service; timers := 0 |}.

Definition handle (call : Call) (p : Process) : Process :=
  match call with
  | call_startScan =>
      let '(this, timer) := startScan (service p) in
      {| service := this;
         timers := if timer then S (timers p) else timers p |}
  | call_timer =>
      match timers p with
      | O => p
      | S n => {| service := discovery_timeout (service p); timers := n |}
      end
  | call_stopScan => {| service := stopScan (service p); timers := timers p |}
  | call_connect deviceId =>
      {| service := snd (ipc_connect deviceId (service p));
         timers := timers p |}
  | call_disconnect =>
      {| service := disconnect (service p); timers := timers p |}
  end.

Definition run (calls : list Call) (p : Process) : Process :=
  fold_left (fun p call => handle call p) calls p.

(** Devices reported one after another. *)
Definition discover (devices : list BluetoothDevice)
           (this : NativeBluetoothService) : NativeBluetoothService :=
  fold_left (fun this device => onDeviceDiscovered device this) devices this.

(** The last device of a list that has the identifier [key]. *)
Fixpoint last_with_id (key : jsstring) (devices : list BluetoothDevice)
  : option BluetoothDevice :=
  match devices with
  | [] => None
  | d :: devices' =>
      match last_with_id key devices' with
      | Some d' => Some d'
      | None => if string_eq_dec (id d) key then Some d else None
      end
  end.

(** Every entry of the map is filed under the identifier of its
    device. *)
Definition keyed_by_id (m : DeviceMap) : Prop :=
  Forall (fun entry => fst entry = id (snd entry)) m.

End NativeBluetooth.

(* ================================================================== *)
(** * Part II. Properties                                              *)
(* ================================================================== *)

Ltac split_andb :=
  repeat match goal with
         | H : _ && _ = true |- _ => apply andb_true_iff in H; destruct H
         end.

(** ** Splitting and the carried-over buffer *)

Lemma last_app_nonempty {A} (l1 l2 : list A) (d : A) :
  l2 <> [] -> last (l1 ++ l2) d = last l2 d.
Proof.
  intros Hne. induction l1 as [|x l1 IH]; [reflexivity|].
  cbn [app last]. rewrite IH.
  destruct (l1 ++ l2) eqn:E; [|reflexivity].
  apply app_eq_nil in E. now destruct E.
Qed.

Section SplitFacts.
Variable sep : code_unit.

Lemma split_nonempty (s : jsstring) : split sep s <> [].
Proof.
  destruct s as [|c s]; simpl; [discriminate|].
  destruct (c =? sep); [discriminate|].
  destruct (split sep s); discriminate.
Qed.

Lemma split_cons_sep (s : jsstring) : split sep (sep :: s) = [] :: split sep s.
Proof. simpl. now rewrite N.eqb_refl. Qed.

Lemma split_cons_other (c : code_unit) (s : jsstring) :
  c <> sep ->
  split sep (c :: s) = (c :: hd [] (split sep s)) :: tl (split sep s).
Proof.
  intros Hc. simpl.
  destruct (N.eqb_spec c sep) as [E|_]; [contradiction|].
  pose proof (split_nonempty s) as Hne.
  destruct (split sep s); [contradiction|reflexivity].
Qed.

(** Splitting a concatenation: the complete segments of the first part,
    then the split of its last segment followed by the second part. *)
Lemma split_app (a b : jsstring) :
  split sep (a ++ b) =
  removelast (split sep a) ++ split sep (last (split sep a) [] ++ b).
Proof.
  induction a as [|c a IH]; [reflexivity|].
  pose proof (split_nonempty a) as Hne.
  rewrite <- app_comm_cons.
  destruct (N.eq_dec c sep) as [->|Hc].
  - rewrite !split_cons_sep, IH.
    destruct (split sep a) as [|seg segs]; [contradiction|reflexivity].
  - rewrite !split_cons_other, IH by assumption.
    destruct (split sep a) as [|seg segs]; [contradiction|].
    destruct segs as [|seg' segs]; cbn [removelast last hd tl app].
    + now rewrite split_cons_other by assumption.
    + reflexivity.
Qed.

Lemma last_split_no_sep (s : jsstring) : ~ In sep (last (split sep s) []).
Proof.
  induction s as [|c s IH]; [intros []|].
  pose proof (split_nonempty s) as Hne.
  destruct (N.eq_dec c sep) as [->|Hc].
  - rewrite split_cons_sep.
    destruct (split sep s); [contradiction|exact IH].
  - rewrite split_cons_other by assumption.
    destruct (split sep s) as [|seg [|seg' segs]]; [contradiction| |exact IH].
    cbn [hd tl last] in *. intros [E|H]; [now apply Hc|now apply IH].
Qed.

Lemma split_no_sep (s : jsstring) : ~ In sep s -> split sep s = [s].
Proof.
  induction s as [|c s IH]; intros Hs; [reflexivity|].
  rewrite split_cons_other by (intros ->; apply Hs; now left).
  rewrite IH by (intros H; apply Hs; now right).
  reflexivity.
Qed.

(** A segment closed by a separator comes out whole. *)
Lemma split_line (s t : jsstring) :
  ~ In sep s -> split sep (s ++ sep :: t) = s :: split sep t.
Proof.
  induction s as [|c s IH]; intros Hs; [apply split_cons_sep|].
  rewrite <- app_comm_cons.
  rewrite split_cons_other by (intros ->; apply Hs; now left).
  rewrite IH by (intros H; apply Hs; now right).
  reflexivity.
Qed.
End SplitFacts.

(** ** The stream decoder *)

Section Decoder.
Variable decode : Uint8Array -> jsstring.

(** The decoded fields do not depend on the clock. *)
Lemma parseTelemetry_reading (now now' : Z) (message : jsstring) :
  option_map reading (parseTelemetry now message)
  = option_map reading (parseTelemetry now' message).
Proof.
  unfold parseTelemetry.
  destruct (String_match telemetry_regex (trim message)) as [m|]; [|reflexivity].
  destruct (capture m 1) as [st|]; [|reflexivity].
  destruct (capture m 2) as [m2|]; [|reflexivity].
  destruct (capture m 3) as [m3|]; [|reflexivity].
  repeat match goal with |- context [if ?b then _ else _] => destruct b end;
    reflexivity.
Qed.

Lemma parse_lines_reading (clock clock' : nat -> Z) (i j : nat) (lines : list jsstring) :
  map reading (parse_lines clock i lines) = map reading (parse_lines clock' j lines).
Proof.
  revert i j. induction lines as [|line rest IH]; intros i j; [reflexivity|].
  simpl.
  pose proof (parseTelemetry_reading (clock i) (clock' j) line) as H.
  destruct (parseTelemetry (clock i) line) as [t|],
           (parseTelemetry (clock' j) line) as [t'|];
    cbn [option_map] in H; try discriminate; cbn [map].
  - f_equal; [congruence|apply IH].
  - apply IH.
Qed.

Lemma parse_lines_app (clock : nat -> Z) (i : nat) (l1 l2 : list jsstring) :
  parse_lines clock i (l1 ++ l2)
  = parse_lines clock i l1 ++ parse_lines clock (i + List.length l1) l2.
Proof.
  revert i. induction l1 as [|line rest IH]; intros i; simpl.
  - now rewrite Nat.add_0_r.
  - rewrite IH, Nat.add_succ_r.
    destruct (parseTelemetry (clock i) line); reflexivity.
Qed.

(** One call on [s1 ++ s2] against a call on [s1] followed by a call on
    [s2], from any buffer. *)
Lemma feed_app (c c1 c2 : nat -> Z) (this : TelemetryStreamParser) (s1 s2 : jsstring) :
  let r := feed decode c this (OfString (s1 ++ s2)) in
  let r1 := feed decode c1 this (OfString s1) in
  let r2 := feed decode c2 (snd r1) (OfString s2) in
  map reading (fst r) = map reading (fst r1 ++ fst r2) /\ snd r = snd r2.
Proof.
  unfold feed; simpl.
  rewrite app_assoc, (split_app LF (buffer this ++ s1) s2).
  set (l1 := split LF (buffer this ++ s1)).
  set (l2 := split LF (last l1 [] ++ s2)).
  assert (Hne : l2 <> []) by apply split_nonempty.
  split.
  - rewrite removelast_app by assumption.
    rewrite parse_lines_app, !map_app. f_equal.
    + apply parse_lines_reading.
    + apply parse_lines_reading.
  - now rewrite last_app_nonempty by assumption.
Qed.

Lemma feed_buffer_ok (c : nat -> Z) (this : TelemetryStreamParser) (data : FeedData) :
  buffer_ok (snd (feed decode c this data)).
Proof. unfold feed, buffer_ok; simpl. apply last_split_no_sep. Qed.

Lemma feed_empty (c : nat -> Z) (this : TelemetryStreamParser) :
  buffer_ok this -> feed decode c this (OfString []) = ([], this).
Proof.
  intros Hb. unfold feed. simpl. rewrite app_nil_r, (split_no_sep _ _ Hb).
  destruct this; reflexivity.
Qed.

Lemma feed_all_concat (c : nat -> Z) (calls : list ((nat -> Z) * jsstring))
      (this : TelemetryStreamParser) :
  buffer_ok this ->
  let chunked := feed_all decode this (string_calls calls) in
  let whole := feed decode c this (OfString (List.concat (map snd calls))) in
  map reading (fst chunked) = map reading (fst whole) /\ snd chunked = snd whole.
Proof.
  revert c this. induction calls as [|[c1 s1] calls IH]; intros c this Hb.
  - cbn [string_calls map feed_all List.concat fst snd].
    now rewrite feed_empty.
  - cbn [string_calls map feed_all List.concat fst snd].
    fold (string_calls calls).
    destruct (feed_app c c1 c this s1 (List.concat (map snd calls))) as [Hr Hs].
    destruct (feed decode c1 this (OfString s1)) as [frames1 this1] eqn:E1.
    assert (Hb1 : buffer_ok this1).
    { replace this1 with (snd (feed decode c1 this (OfString s1))) by now rewrite E1.
      apply feed_buffer_ok. }
    destruct (IH c this1 Hb1) as [IHr IHs].
    destruct (feed_all decode this1 (string_calls calls)) as [frames' this2].
    cbn [fst snd] in *.
    split.
    + now rewrite Hr, !map_app, IHr.
    + now rewrite Hs.
Qed.
End Decoder.

(** ** Character classes *)

Lemma WhiteSpace_range (c : code_unit) :
  WhiteSpace c = true -> 9 <= c <= 13 \/ c = 32 \/ 160 <= c.
Proof.
  unfold WhiteSpace, between.
  rewrite !orb_true_iff, !andb_true_iff, !N.leb_le, !N.eqb_eq. lia.
Qed.

Lemma WordChar_range (c : code_unit) : WordChar c = true -> 48 <= c <= 122.
Proof.
  unfold WordChar, Digit, between.
  rewrite !orb_true_iff, !andb_true_iff, !N.leb_le, !N.eqb_eq. lia.
Qed.

Lemma DigitOrDot_range (c : code_unit) : DigitOrDot c = true -> 46 <= c <= 57.
Proof.
  unfold DigitOrDot, Digit, between, cu. simpl N_of_ascii.
  rewrite !orb_true_iff, !andb_true_iff, !N.leb_le, !N.eqb_eq. lia.
Qed.

Lemma Digit_range (c : code_unit) : Digit c = true -> 48 <= c <= 57.
Proof.
  unfold Digit, between. rewrite !andb_true_iff, !N.leb_le. lia.
Qed.

Lemma Canonicalize_letter (c x : code_unit) :
  Canonicalize true c = x -> 65 <= x <= 90 -> c = x \/ c = x + 32.
Proof.
  unfold Canonicalize, between. cbn [andb].
  destruct (N.leb_spec 97 c), (N.leb_spec c 122); cbn [andb]; intros <-; lia.
Qed.

Lemma not_true_false (b : bool) : (b = true -> False) -> b = false.
Proof. destruct b; [intros H; now destruct H|reflexivity]. Qed.

Lemma stops_head (p q : code_unit -> bool) (w s : jsstring) :
  (forall c, q c = true -> p c = false) -> run q w = true -> stops p (w ++ s).
Proof.
  intros Hpq Hw. destruct w as [|c w]; [discriminate|].
  cbn in *. apply Hpq. now apply andb_true_iff in Hw.
Qed.

Lemma run_forallb (p : code_unit -> bool) (w : jsstring) :
  run p w = true -> forallb p w = true.
Proof. destruct w; [discriminate|trivial]. Qed.

Lemma same_letters_spec (a b : jsstring) :
  same_letters a b = true ->
  map (Canonicalize true) a = map (Canonicalize true) b.
Proof.
  unfold same_letters, string_eqb.
  now destruct (list_eq_dec N.eq_dec _ _).
Qed.

(** A label written in any case starts with a letter of its own. *)
Lemma stops_label (p : code_unit -> bool) (lab pat s : jsstring) (x : code_unit) :
  same_letters lab (x :: pat) = true ->
  65 <= Canonicalize true x <= 90 ->
  (forall c, 65 <= c <= 122 -> c <> 95 -> p c = false) ->
  stops p (lab ++ s).
Proof.
  intros Hl Hx Hp. apply same_letters_spec in Hl.
  destruct lab as [|c lab]; [discriminate|].
  cbn [map] in Hl. injection Hl as Hc _.
  cbn. apply Hp; destruct (Canonicalize_letter _ _ Hc Hx); lia.
Qed.

Lemma WhiteSpace_not_letter (c : code_unit) :
  65 <= c <= 122 -> c <> 95 -> WhiteSpace c = false.
Proof.
  intros H _. apply not_true_false. intros Hw.
  apply WhiteSpace_range in Hw. lia.
Qed.

(** ** The backtracking matcher on a line of the wire format *)

Section MatcherFacts.
Variable ic : bool.
Context {R : Type}.
Implicit Types (k : jsstring -> Captures -> option R).

Lemma greedy_run (p : code_unit -> bool) (w s : jsstring)
      (k : jsstring -> option R) (x : R) :
  forallb p w = true -> stops p s -> k s = Some x ->
  greedy p (w ++ s) k = Some x.
Proof.
  intros Hw Hs Hk. induction w as [|c w IH]; cbn [app greedy].
  - destruct s as [|c s]; [exact Hk|]. cbn in Hs. cbn [greedy]. now rewrite Hs.
  - cbn in Hw. apply andb_true_iff in Hw as [Hc Hw].
    now rewrite Hc, (IH Hw).
Qed.

Lemma matcher_star (p : code_unit -> bool) (r : Regex) (w s : jsstring)
      (caps : Captures) k (x : R) :
  forallb p w = true -> stops p s ->
  matcher ic r s caps k = Some x ->
  matcher ic (Seq (Star (CharSet p)) r) (w ++ s) caps k = Some x.
Proof. intros Hw Hs Hk. cbn [matcher atom_matches]. now apply greedy_run. Qed.

Lemma matcher_plus (p : code_unit -> bool) (r : Regex) (w s : jsstring)
      (caps : Captures) k (x : R) :
  run p w = true -> stops p s ->
  matcher ic r s caps k = Some x ->
  matcher ic (Seq (Plus (CharSet p)) r) (w ++ s) caps k = Some x.
Proof.
  intros Hw Hs Hk. destruct w as [|c w]; [discriminate|].
  cbn in Hw. apply andb_true_iff in Hw as [Hc Hw].
  cbn [matcher atom_matches app]. rewrite Hc. now apply greedy_run.
Qed.

Lemma consumed_app (w s : jsstring) : consumed (w ++ s) s = w.
Proof.
  unfold consumed. rewrite length_app, Nat.add_sub.
  rewrite firstn_app, Nat.sub_diag, firstn_all. cbn. apply app_nil_r.
Qed.

Lemma matcher_group_plus (n : nat) (p : code_unit -> bool) (r : Regex)
      (w s : jsstring) (caps : Captures) k (x : R) :
  run p w = true -> stops p s ->
  matcher ic r s (set_capture n w caps) k = Some x ->
  matcher ic (Seq (Group n (Plus (CharSet p))) r) (w ++ s) caps k = Some x.
Proof.
  intros Hw Hs Hk. pose proof (consumed_app w s) as Hcons.
  destruct w as [|c w]; [discriminate|].
  cbn in Hw. apply andb_true_iff in Hw as [Hc Hw].
  cbn [matcher atom_matches]. cbn [app]. rewrite Hc.
  apply greedy_run; [assumption..|].
  cbn [app] in Hcons. cbn beta. now rewrite Hcons.
Qed.
End MatcherFacts.

Lemma matcher_lit {R : Type} (pat lab s : jsstring) (r : Regex) (caps : Captures)
      (k : jsstring -> Captures -> option R) :
  same_letters lab pat = true ->
  matcher true (Seq (lit pat) r) (lab ++ s) caps k = matcher true r s caps k.
Proof.
  intros Hl. apply same_letters_spec in Hl.
  revert lab Hl. induction pat as [|c pat IH]; intros lab Hl.
  - destruct lab; [reflexivity|discriminate].
  - destruct lab as [|d lab]; [discriminate|].
    cbn [map] in Hl. injection Hl as Hd Hl.
    specialize (IH lab Hl).
    cbn [lit matcher app atom_matches] in *.
    now rewrite Hd, N.eqb_refl.
Qed.

Lemma class_disjoint :
  (forall c, WordChar c = true -> WhiteSpace c = false)
  /\ (forall c, WhiteSpace c = true -> WordChar c = false)
  /\ (forall c, DigitOrDot c = true -> WhiteSpace c = false)
  /\ (forall c, WhiteSpace c = true -> DigitOrDot c = false)
  /\ (forall c, Digit c = true -> WhiteSpace c = false).
Proof.
  repeat split; intros c H; apply not_true_false; intros H';
    repeat match goal with
           | H : WhiteSpace _ = true |- _ => apply WhiteSpace_range in H
           | H : WordChar _ = true |- _ => apply WordChar_range in H
           | H : DigitOrDot _ = true |- _ => apply DigitOrDot_range in H
           | H : Digit _ = true |- _ => apply Digit_range in H
           end; lia.
Qed.

(** On a well-formed line the pattern matches at once, whatever follows
    the [%], and captures the three tokens. *)
Lemma matcher_text {R : Type} (l : Line) (rest : jsstring) (caps : Captures)
      (k : jsstring -> Captures -> option R) (x : R) :
  well_formed l = true ->
  k rest (set_capture 3 (percent_token l)
            (set_capture 2 (speed_token l)
               (set_capture 1 (status_token l) caps))) = Some x ->
  matcher true (source telemetry_regex) (text l ++ rest) caps k = Some x.
Proof.
  intros Hwf Hk. unfold well_formed in Hwf. split_andb.
  destruct class_disjoint as (Hww & Hsw & Hds & Hsd & Hdw).
  unfold text. rewrite <- !app_assoc.
  unfold telemetry_regex. cbn [source seq].
  rewrite matcher_lit by assumption.
  apply matcher_star;
    [assumption|now apply (stops_head _ WordChar)|].
  apply matcher_group_plus;
    [assumption|now apply (stops_head _ WhiteSpace)|].
  apply matcher_plus;
    [assumption
    |now apply (stops_label _ _ (js "peed:") _ (cu "S"));
       [|cbn; lia|apply WhiteSpace_not_letter]|].
  rewrite matcher_lit by assumption.
  apply matcher_star;
    [assumption|now apply (stops_head _ DigitOrDot)|].
  apply matcher_group_plus;
    [assumption|now apply (stops_head _ WhiteSpace)|].
  apply matcher_plus;
    [assumption
    |now apply (stops_label _ _ (js "nomaly:") _ (cu "A"));
       [|cbn; lia|apply WhiteSpace_not_letter]|].
  rewrite matcher_lit by assumption.
  apply matcher_star;
    [assumption|now apply (stops_head _ Digit)|].
  apply matcher_group_plus; [assumption|reflexivity|].
  exact Hk.
Qed.

Lemma match_here_text (l : Line) (rest : jsstring) :
  well_formed l = true ->
  match_here telemetry_regex (text l ++ rest)
  = Some [Some (text l); Some (status_token l);
          Some (speed_token l); Some (percent_token l)].
Proof.
  intros Hwf. unfold match_here. cbn [matcher].
  apply matcher_text; [assumption|].
  now rewrite consumed_app.
Qed.

(** ** Leftmost match *)

Lemma String_match_skip (pre rest : jsstring) :
  matches_before pre rest = false ->
  String_match telemetry_regex (pre ++ rest) = String_match telemetry_regex rest.
Proof.
  induction pre as [|c pre IH]; intros H; [reflexivity|].
  cbn [matches_before] in H. cbn [String_match app] in *.
  destruct (match_here telemetry_regex (c :: pre ++ rest)); [discriminate|].
  now apply IH.
Qed.

Lemma String_match_text (l : Line) (pre post : jsstring) :
  well_formed l = true ->
  matches_before pre (text l ++ post) = false ->
  String_match telemetry_regex (pre ++ text l ++ post)
  = Some [Some (text l); Some (status_token l);
          Some (speed_token l); Some (percent_token l)].
Proof.
  intros Hwf Hpre. rewrite String_match_skip by assumption.
  pose proof (match_here_text l post Hwf) as H.
  destruct (text l ++ post); cbn [String_match]; now rewrite H.
Qed.

(** No attempt succeeds on a code unit that is not the letter M. *)
Lemma match_here_not_M (c : code_unit) (s : jsstring) :
  Canonicalize true c <> cu "M" ->
  match_here telemetry_regex (c :: s) = None.
Proof.
  intros Hc. unfold match_here, telemetry_regex.
  cbn [source ignoreCase seq lit js map list_ascii_of_string matcher
       atom_matches].
  now destruct (N.eqb_spec (Canonicalize true c)
                           (Canonicalize true (N_of_ascii "M"))).
Qed.

(** Text without the letter M, in either case, holds no earlier match. *)
Lemma matches_before_no_M (pre rest : jsstring) :
  forallb (fun c => negb (Canonicalize true c =? cu "M")) pre = true ->
  matches_before pre rest = false.
Proof.
  induction pre as [|c pre IH]; [reflexivity|].
  cbn [forallb matches_before app]. intros H.
  apply andb_true_iff in H as [Hc Hpre].
  rewrite match_here_not_M; [now apply IH|].
  intros E. now rewrite E, N.eqb_refl in Hc.
Qed.

(** ** Trimming *)

Lemma trimStart_app (a b : jsstring) :
  stops WhiteSpace b -> trimStart (a ++ b) = trimStart a ++ b.
Proof.
  intros Hb. induction a as [|c a IH]; cbn [app trimStart].
  - destruct b as [|c b]; [reflexivity|]. cbn in Hb. cbn. now rewrite Hb.
  - now destruct (WhiteSpace c).
Qed.

Lemma trimEnd_app (a b : jsstring) :
  stops WhiteSpace (rev a) -> trimEnd (a ++ b) = a ++ trimEnd b.
Proof.
  intros Ha. unfold trimEnd.
  now rewrite rev_app_distr, trimStart_app, rev_app_distr, rev_involutive.
Qed.

Lemma text_ends (l : Line) : exists s, text l = s ++ [cu "%"].
Proof.
  unfold text.
  exists (motor_label l ++ gap1 l ++ status_token l ++ gap2 l
            ++ speed_label l ++ gap3 l ++ speed_token l ++ gap4 l
            ++ anomaly_label l ++ gap5 l ++ percent_token l).
  now rewrite <- !app_assoc.
Qed.

Lemma text_starts (l : Line) (s : jsstring) :
  well_formed l = true -> stops WhiteSpace (text l ++ s).
Proof.
  intros Hwf. unfold well_formed in Hwf. split_andb.
  unfold text. rewrite <- !app_assoc.
  apply (stops_label _ _ (js "otor:") _ (cu "M"));
    [assumption|cbn; lia|apply WhiteSpace_not_letter].
Qed.

(** Trimming a message around an embedded line leaves the line alone. *)
Lemma trim_around (l : Line) (pre post : jsstring) :
  well_formed l = true ->
  trim (pre ++ text l ++ post) = trimStart pre ++ text l ++ trimEnd post.
Proof.
  intros Hwf. unfold trim.
  rewrite trimStart_app by now apply text_starts.
  rewrite !app_assoc. apply trimEnd_app.
  destruct (text_ends l) as [s ->].
  now rewrite !rev_app_distr.
Qed.

(** ** [parseTelemetry] on the wire format *)

Lemma parseTelemetry_around (now : Z) (l : Line) (pre post : jsstring) :
  well_formed l = true ->
  matches_before (trimStart pre) (text l ++ trimEnd post) = false ->
  parseTelemetry now (pre ++ text l ++ post)
  = checked now (status_token l) (speed_token l) (percent_token l).
Proof.
  intros Hwf Hpre. unfold parseTelemetry.
  rewrite trim_around, String_match_text by assumption.
  cbn [capture nth]. unfold checked, speed_ok, percent_ok, decoded.
  destruct (includes valid_statuses (status_token l)); [|reflexivity].
  cbn [negb andb].
  destruct (isNaN (parseFloat (speed_token l))
            || lt (parseFloat (speed_token l)) (of_Z 0)
            || gt (parseFloat (speed_token l)) (of_Z 25)); [reflexivity|].
  cbn [negb andb].
  now destruct (isNaN (parseInt10 (percent_token l))
            || lt (parseInt10 (percent_token l)) (of_Z 0)
            || gt (parseInt10 (percent_token l)) (of_Z 100)).
Qed.

Lemma parseTelemetry_text (now : Z) (l : Line) :
  well_formed l = true ->
  parseTelemetry now (text l)
  = checked now (status_token l) (speed_token l) (percent_token l).
Proof.
  intros Hwf.
  rewrite <- (parseTelemetry_around now l [] [] Hwf eq_refl).
  now rewrite app_nil_r.
Qed.

(** ** The number model on sample texts *)

(** [parseFloat] rounds to the nearest binary64 value: 0.1 is
    [0x1.999999999999ap-4], the longest numeric prefix is read, a text
    a hair above 25 reads as 25 while the next representable value does
    not, and a lone dot is [NaN]. *)
Example parseFloat_samples :
  parseFloat (js "0.1") = S754_finite false 7205759403792794 (-56)
  /\ parseFloat (js "15.50") = S754_finite false 8725724278030336 (-49)
  /\ parseFloat (js "1.2.3") = parseFloat (js "1.2")
  /\ parseFloat (js "5.") = of_Z 5
  /\ parseFloat (js ".5") = S754_finite false 4503599627370496 (-53)
  /\ parseFloat (js "25.0000000000000001") = of_Z 25
  /\ gt (parseFloat (js "25.000000000000004")) (of_Z 25) = true
  /\ parseFloat (js ".") = NaN
  /\ parseFloat (js "0.00") = S754_zero false.
Proof. repeat split; vm_compute; reflexivity. Qed.

Example parseInt10_samples :
  parseInt10 (js "5") = of_Z 5
  /\ parseInt10 (js "007") = of_Z 7
  /\ parseInt10 (js "100") = S754_finite false 7036874417766400 (-46)
  /\ gt (parseInt10 (js "101")) (of_Z 100) = true
  /\ parseInt10 (js "") = NaN.
Proof. repeat split; vm_compute; reflexivity. Qed.

(** ** The claims about the stream decoder *)

(** C1. Fragmentation invariance: however a string is cut into chunks
    (empty chunks included), feeding the chunks one by one to a fresh
    parser yields, over all calls, the same records in the same order
    (status, speed, rpm, anomalyPercentage and anomalyDetected; each call
    reads its own clock) and leaves the same buffer as feeding the whole
    string to a fresh parser in one call. *)
Theorem fragmentation_invariance
        (decode : Uint8Array -> jsstring) (clock : nat -> Z)
        (calls : list ((nat -> Z) * jsstring)) :
  let chunked := feed_all decode new_TelemetryStreamParser (string_calls calls) in
  let whole := feed decode clock new_TelemetryStreamParser
                    (OfString (List.concat (map snd calls))) in
  map reading (fst chunked) = map reading (fst whole)
  /\ getBuffer (snd chunked) = getBuffer (snd whole).
Proof.
  destruct (feed_all_concat decode clock calls new_TelemetryStreamParser)
    as [Hr Hs]; [intros []|].
  cbn zeta. now rewrite Hr, Hs.
Qed.

(** The same for chunks of bytes, as the page hands them over, whenever
    the platform's decoder reads the chunks on their own as it reads them
    joined, as it does for the ASCII text of the wire format. *)
Corollary chunked_bytes_agree
          (decode : Uint8Array -> jsstring) (clock : nat -> Z)
          (calls : list ((nat -> Z) * Uint8Array)) :
  decode (List.concat (map snd calls))
  = List.concat (map (fun call => decode (snd call)) calls) ->
  let chunked := feed_all decode new_TelemetryStreamParser
                          (map (fun call => (fst call, OfBytes (snd call))) calls) in
  let whole := feed decode clock new_TelemetryStreamParser
                    (OfBytes (List.concat (map snd calls))) in
  map reading (fst chunked) = map reading (fst whole)
  /\ getBuffer (snd chunked) = getBuffer (snd whole).
Proof.
  intros Hdec. cbn zeta.
  change (feed decode clock new_TelemetryStreamParser
               (OfBytes (List.concat (map snd calls))))
    with (feed decode clock new_TelemetryStreamParser
               (OfString (decode (List.concat (map snd calls))))).
  rewrite Hdec.
  assert (E : forall this (cs : list ((nat -> Z) * Uint8Array)),
             feed_all decode this (map (fun call => (fst call, OfBytes (snd call))) cs)
             = feed_all decode this
                 (string_calls (map (fun call => (fst call, decode (snd call))) cs))).
  { intros this cs. revert this.
    induction cs as [|[c b] cs IH]; intros this; [reflexivity|].
    cbn [map string_calls feed_all fst snd].
    change (feed decode c this (OfBytes b))
      with (feed decode c this (OfString (decode b))).
    destruct (feed decode c this (OfString (decode b))) as [frames this1].
    fold (string_calls (map (fun call => (fst call, decode (snd call))) cs)).
    now rewrite IH. }
  rewrite E.
  replace (map (fun call => decode (snd call)) calls)
    with (map snd (map (fun call => (fst call, decode (snd call))) calls))
    by now rewrite map_map.
  destruct (feed_all_concat decode clock
              (map (fun call => (fst call, decode (snd call))) calls)
              new_TelemetryStreamParser) as [Hr Hs]; [intros []|].
  now rewrite Hr, Hs.
Qed.

(** C2. The two-chunk scenario: the first chunk has no terminator and
    yields nothing; the second completes the line, which yields one
    record (Running, 15.5 = 8725724278030336 * 2^-49, 5, no anomaly), and
    leaves the unterminated ["Motor: Stop"] in the buffer. *)
Theorem feed_scenario
        (decode : Uint8Array -> jsstring) (clock1 clock2 : nat -> Z) :
  let r1 := feed decode clock1 new_TelemetryStreamParser
                 (OfString (js "Motor: Running  Speed: 15.")) in
  let r2 := feed decode clock2 (snd r1)
                 (OfString (js "50 Anomaly: 5%" ++ [LF] ++ js "Motor: Stop")) in
  fst r1 = []
  /\ getBuffer (snd r1) = js "Motor: Running  Speed: 15."
  /\ (exists t, fst r2 = [t]
                /\ status t = js "Running"
                /\ speed t = S754_finite false 8725724278030336 (-49)
                /\ speed t = of_decimal false 1550 (-2)
                /\ anomalyPercentage t = of_Z 5
                /\ anomalyDetected t = false
                /\ timestamp t = clock2 0%nat)
  /\ getBuffer (snd r2) = js "Motor: Stop".
Proof.
  cbn zeta. split; [reflexivity|]. split; [reflexivity|]. split.
  - eexists. split; [vm_compute; reflexivity|].
    repeat split; vm_compute; reflexivity.
  - vm_compute. reflexivity.
Qed.

(** C8. [reset] empties the buffer, whatever it held: the parser is then
    indistinguishable from a fresh one, for the next call of [feed] and
    for every later one.  The second half of a line that was cut before
    the reset completes nothing after it, where it completes a record
    without the reset. *)
Theorem reset_discards_buffer
        (decode : Uint8Array -> jsstring) (this : TelemetryStreamParser) :
  getBuffer (reset this) = []
  /\ (forall clock data,
         feed decode clock (reset this) data
         = feed decode clock new_TelemetryStreamParser data)
  /\ (forall calls,
         feed_all decode (reset this) calls
         = feed_all decode new_TelemetryStreamParser calls)
  /\ (forall clock,
         let half := feed decode clock new_TelemetryStreamParser
                          (OfString (js "Motor: Running  Speed: 15.")) in
         let rest := OfString (js "50 Anomaly: 5%" ++ [LF]) in
         List.length (fst (feed decode clock (snd half) rest)) = 1%nat
         /\ fst (feed decode clock (reset (snd half)) rest) = []).
Proof.
  split; [reflexivity|]. split; [reflexivity|]. split; [reflexivity|].
  intros clock half rest. split; vm_compute; reflexivity.
Qed.

(** ** The claims about the line validator *)

Lemma includes_In (xs : list jsstring) (x : jsstring) :
  includes xs x = true <-> In x xs.
Proof.
  unfold includes. rewrite existsb_exists. split.
  - intros (y & Hy & E). now destruct (list_eq_dec N.eq_dec y x) as [<-|].
  - intros H. exists x. split; [assumption|].
    now destruct (list_eq_dec N.eq_dec x x).
Qed.

Lemma checked_accepts (now : Z) (st sp pc : jsstring) :
  speed_ok sp = true -> percent_ok pc = true ->
  (checked now st sp pc <> None <-> In st valid_statuses).
Proof.
  intros Hsp Hpc. unfold checked. rewrite Hsp, Hpc, !andb_true_r.
  rewrite <- includes_In.
  destruct (includes valid_statuses st); split; congruence.
Qed.

(** Every record comes out of the three checks of [parseTelemetry]. *)
Lemma parseTelemetry_Some (now : Z) (message : jsstring) (r : MotorTelemetry) :
  parseTelemetry now message = Some r ->
  exists st sp pc,
    r = decoded now st sp pc
    /\ includes valid_statuses st = true
    /\ speed_ok sp = true /\ percent_ok pc = true.
Proof.
  unfold parseTelemetry.
  destruct (String_match telemetry_regex (trim message)) as [m|]; [|discriminate].
  destruct (capture m 1) as [st|]; [|discriminate].
  destruct (capture m 2) as [sp|]; [|discriminate].
  destruct (capture m 3) as [pc|]; [|discriminate].
  destruct (includes valid_statuses st) eqn:Hst; [|discriminate]. cbn [negb].
  destruct (isNaN (parseFloat sp) || lt (parseFloat sp) (of_Z 0)
            || gt (parseFloat sp) (of_Z 25)) eqn:Hsp; [discriminate|].
  destruct (isNaN (parseInt10 pc) || lt (parseInt10 pc) (of_Z 0)
            || gt (parseInt10 pc) (of_Z 100)) eqn:Hpc; [discriminate|].
  intros [= <-]. exists st, sp, pc.
  unfold speed_ok, percent_ok. now rewrite Hsp, Hpc.
Qed.

(** What [parseTelemetry] accepts, [isValidTelemetryFormat] accepts. *)
Lemma parseTelemetry_valid_format (now : Z) (message : jsstring) :
  parseTelemetry now message <> None -> isValidTelemetryFormat message = true.
Proof.
  unfold parseTelemetry, isValidTelemetryFormat.
  now destruct (String_match telemetry_regex (trim message)).
Qed.

(** C3, as stated, fails: on a line with valid speed and percent tokens
    whose status token is ["running"], the keyword ["Running"] in lower
    case, [parseTelemetry] returns [null]. *)
Lemma lowercase_status_rejected :
  text (canonical (js "running") (js "15.50") (js "5"))
  = js "Motor: running  Speed: 15.50 Anomaly: 5%"
  /\ well_formed (canonical (js "running") (js "15.50") (js "5")) = true
  /\ same_letters (js "running") (js "Running") = true
  /\ speed_ok (js "15.50") = true
  /\ percent_ok (js "5") = true
  /\ parseTelemetry 0 (js "Motor: running  Speed: 15.50 Anomaly: 5%") = None.
Proof. repeat split; vm_compute; reflexivity. Qed.

(** C3, amended.  The labels [Motor:], [Speed:] and [Anomaly:] are matched
    in any letter case, the status keyword is compared exactly: a line
    with valid speed and percent tokens whose status token is a keyword
    up to letter case is accepted if and only if the token is the keyword
    in its own casing. *)
Theorem status_keyword_case_sensitive
        (now : Z) (l : Line) (keyword : jsstring) :
  well_formed l = true ->
  speed_ok (speed_token l) = true ->
  percent_ok (percent_token l) = true ->
  In keyword valid_statuses ->
  same_letters (status_token l) keyword = true ->
  (parseTelemetry now (text l) <> None <-> status_token l = keyword).
Proof.
  intros Hwf Hsp Hpc Hkw Hsame.
  rewrite (parseTelemetry_text now l Hwf), (checked_accepts now _ _ _ Hsp Hpc).
  split.
  - intros Hst.
    cbn in Hkw, Hst.
    destruct Hkw as [<-|[<-|[<-|[]]]], Hst as [E|[E|[E|[]]]];
      rewrite <- E in Hsame |- *; try reflexivity;
      vm_compute in Hsame; discriminate.
  - now intros ->.
Qed.

Lemma status_keyword_case_sensitive_witness :
  parseTelemetry 7 (js "MOTOR: Stop  speed: 0.00 anomaly: 0%") <> None
  <-> js "Stop" = js "Stop".
Proof.
  apply (status_keyword_case_sensitive 7
           {| motor_label := js "MOTOR:"; gap1 := js " ";
              status_token := js "Stop"; gap2 := js "  ";
              speed_label := js "speed:"; gap3 := js " ";
              speed_token := js "0.00"; gap4 := js " ";
              anomaly_label := js "anomaly:"; gap5 := js " ";
              percent_token := js "0" |} (js "Stop"));
    try (vm_compute; reflexivity).
  right. left. reflexivity.
Defined.

(** C4, as stated, fails: ["Stopped"] is not a status the validator
    accepts; a line with that status token and valid speed and percent
    tokens yields no record. *)
Lemma stopped_status_rejected :
  text (canonical (js "Stopped") (js "0.00") (js "0"))
  = js "Motor: Stopped  Speed: 0.00 Anomaly: 0%"
  /\ well_formed (canonical (js "Stopped") (js "0.00") (js "0")) = true
  /\ speed_ok (js "0.00") = true
  /\ percent_ok (js "0") = true
  /\ parseTelemetry 0 (js "Motor: Stopped  Speed: 0.00 Anomaly: 0%") = None.
Proof. repeat split; vm_compute; reflexivity. Qed.

(** C4, amended.  The valid status values are exactly Running, Stop and
    Error: a line with valid speed and percent tokens yields a record if
    and only if its status token is one of these three, and every record
    [parseTelemetry] produces, from any message, carries one of them. *)
Theorem status_set_exact (now : Z) :
  (forall l : Line,
      well_formed l = true ->
      speed_ok (speed_token l) = true ->
      percent_ok (percent_token l) = true ->
      (parseTelemetry now (text l) <> None
       <-> In (status_token l) [js "Running"; js "Stop"; js "Error"]))
  /\ (forall message r,
         parseTelemetry now message = Some r ->
         In (status r) [js "Running"; js "Stop"; js "Error"]).
Proof.
  split.
  - intros l Hwf Hsp Hpc.
    rewrite (parseTelemetry_text now l Hwf).
    now apply checked_accepts.
  - intros message r H.
    destruct (parseTelemetry_Some now message r H) as (st & sp & pc & -> & Hst & _).
    now apply includes_In.
Qed.

Lemma status_set_exact_witness :
  (parseTelemetry 7 (js "Motor: Stop  Speed: 0.00 Anomaly: 0%") <> None
   <-> In (js "Stop") [js "Running"; js "Stop"; js "Error"])
  /\ In (status (decoded 7 (js "Error") (js "0.00") (js "95")))
        [js "Running"; js "Stop"; js "Error"].
Proof.
  split.
  - apply (proj1 (status_set_exact 7)
                 (canonical (js "Stop") (js "0.00") (js "0")));
      vm_compute; reflexivity.
  - apply (proj2 (status_set_exact 7)
                 (js "Motor: Error  Speed: 0.00 Anomaly: 95%")).
    vm_compute. reflexivity.
Defined.

Lemma parseTelemetry_None_any_clock (now now' : Z) (message : jsstring) :
  parseTelemetry now message = None -> parseTelemetry now' message = None.
Proof.
  intros H. pose proof (parseTelemetry_reading now now' message) as E.
  rewrite H in E. now destruct (parseTelemetry now' message).
Qed.

Lemma rejection_set_rejected (now : Z) (bad : jsstring) :
  In bad rejection_set -> parseTelemetry now bad = None /\ ~ In LF bad.
Proof.
  intros Hbad. cbn in Hbad.
  destruct Hbad as [<-|[<-|[<-|[<-|[]]]]];
    (split;
     [apply (parseTelemetry_None_any_clock 0); vm_compute; reflexivity
     |intros H; vm_compute in H;
      repeat (destruct H as [H|H]; [discriminate H|]); exact H]).
Qed.

(** C5. Each line of the rejection set yields no record, alone or before
    a valid line, and the valid line that follows it, in the same chunk
    or in the next one, is decoded as if the invalid line had not been
    there; the buffer is empty afterwards.  [parseTelemetry] is total:
    there is no outcome besides a record and [null]. *)
Theorem invalid_lines_dropped
        (decode : Uint8Array -> jsstring) (clock clock' : nat -> Z)
        (bad valid : jsstring) (t t' : MotorTelemetry) :
  In bad rejection_set ->
  ~ In LF valid ->
  parseTelemetry (clock 1%nat) valid = Some t ->
  parseTelemetry (clock' 0%nat) valid = Some t' ->
  let fresh := new_TelemetryStreamParser in
  (forall now, parseTelemetry now bad = None)
  /\ feed decode clock fresh (OfString (bad ++ [LF])) = ([], fresh)
  /\ feed decode clock fresh (OfString (bad ++ [LF] ++ valid ++ [LF]))
     = ([t], fresh)
  /\ feed decode clock'
          (snd (feed decode clock fresh (OfString (bad ++ [LF]))))
          (OfString (valid ++ [LF]))
     = ([t'], fresh).
Proof.
  intros Hbad Hv Ht Ht' fresh.
  assert (Hnone : forall now, parseTelemetry now bad = None)
    by (intros now; now apply rejection_set_rejected).
  destruct (rejection_set_rejected 0 bad Hbad) as [_ Hb].
  assert (H1 : feed decode clock fresh (OfString (bad ++ [LF])) = ([], fresh)).
  { unfold feed. cbn [buffer fresh new_TelemetryStreamParser app].
    rewrite (split_line LF bad [] Hb).
    cbn [split removelast last parse_lines]. now rewrite Hnone. }
  repeat split; [exact Hnone|exact H1| |].
  - unfold feed. cbn [buffer fresh new_TelemetryStreamParser app].
    rewrite (split_line LF bad _ Hb), (split_line LF valid [] Hv).
    cbn [split removelast last parse_lines]. now rewrite Hnone, Ht.
  - rewrite H1. unfold feed. cbn [snd buffer fresh new_TelemetryStreamParser app].
    rewrite (split_line LF valid [] Hv).
    cbn [split removelast last parse_lines]. now rewrite Ht'.
Qed.

Lemma invalid_lines_dropped_witness :
  feed (fun _ => []) (fun _ => 7%Z) new_TelemetryStreamParser
       (OfString (js "garbage" ++ [LF]
                  ++ js "Motor: Running  Speed: 15.50 Anomaly: 5%" ++ [LF]))
  = ([decoded 7 (js "Running") (js "15.50") (js "5")],
     new_TelemetryStreamParser).
Proof.
  apply (invalid_lines_dropped (fun _ => []) (fun _ => 7%Z) (fun _ => 7%Z)
           (js "garbage") (js "Motor: Running  Speed: 15.50 Anomaly: 5%")
           (decoded 7 (js "Running") (js "15.50") (js "5"))
           (decoded 7 (js "Running") (js "15.50") (js "5"))).
  - right. right. right. left. reflexivity.
  - intros H. vm_compute in H.
    repeat (destruct H as [H|H]; [discriminate H|]). exact H.
  - vm_compute. reflexivity.
  - vm_compute. reflexivity.
Defined.

(** ** The derived fields *)

(** C6. In every record [anomalyDetected] is the strict comparison
    [anomalyPercentage > 50]; on every percentage of the valid range, 0
    to 100, the record carries that integer and the flag is set exactly
    from 51 on; at 50 it is off and at 51 it is on. *)
Theorem anomaly_threshold (now : Z) :
  (forall message r,
      parseTelemetry now message = Some r ->
      anomalyDetected r = gt (anomalyPercentage r) (of_Z 50))
  /\ (forall n : nat,
         (n <= 100)%nat ->
         exists r,
           parseTelemetry now
             (text (canonical (js "Running") (js "15.50") (decimal n))) = Some r
           /\ anomalyPercentage r = of_Z (Z.of_nat n)
           /\ anomalyDetected r = (50 <? n)%nat)
  /\ option_map anomalyDetected
       (parseTelemetry now (js "Motor: Running  Speed: 15.50 Anomaly: 50%"))
     = Some false
  /\ option_map anomalyDetected
       (parseTelemetry now (js "Motor: Running  Speed: 15.50 Anomaly: 51%"))
     = Some true.
Proof.
  split; [|split; [|split; vm_compute; reflexivity]].
  - intros message r H.
    now destruct (parseTelemetry_Some now message r H) as (st & sp & pc & -> & _).
  - intros n Hn.
    do 101 (destruct n as [|n];
            [eexists; split; [vm_compute; reflexivity|split; reflexivity]|]).
    exfalso. lia.
Qed.

Lemma anomaly_threshold_witness :
  anomalyDetected (decoded 7 (js "Error") (js "0.00") (js "95"))
  = gt (anomalyPercentage (decoded 7 (js "Error") (js "0.00") (js "95"))) (of_Z 50)
  /\ exists r,
      parseTelemetry 7
        (text (canonical (js "Running") (js "15.50") (decimal 51))) = Some r
      /\ anomalyPercentage r = of_Z 51
      /\ anomalyDetected r = true.
Proof.
  split.
  - apply (proj1 (anomaly_threshold 7)
                 (js "Motor: Error  Speed: 0.00 Anomaly: 95%")).
    vm_compute. reflexivity.
  - apply (proj1 (proj2 (anomaly_threshold 7)) 51%nat). lia.
Defined.

(** C7. In every record [rpm] is [(speed * 60) / (2 * Math.PI)], computed
    in binary64 from the record's own [speed]; a speed of zero gives an
    rpm of zero, as on the line with speed token [0.0]; a speed of 10.0
    gives 6719720085026553 * 2^-46, between 95.49 and 95.50. *)
Theorem rpm_derivation (now : Z) :
  (forall message r,
      parseTelemetry now message = Some r ->
      rpm r = div (mul (speed r) (of_Z 60)) (mul (of_Z 2) Math_PI)
      /\ (speed r = S754_zero false -> rpm r = S754_zero false))
  /\ (exists r,
         parseTelemetry now (js "Motor: Stop  Speed: 0.0 Anomaly: 0%") = Some r
         /\ speed r = S754_zero false
         /\ rpm r = S754_zero false)
  /\ (exists r,
         parseTelemetry now (js "Motor: Running  Speed: 10.0 Anomaly: 5%") = Some r
         /\ speed r = of_Z 10
         /\ rpm r = S754_finite false 6719720085026553 (-46)
         /\ (9549 * 2 ^ 46 <= 100 * 6719720085026553 < 9550 * 2 ^ 46)%Z).
Proof.
  split; [|split].
  - intros message r H.
    destruct (parseTelemetry_Some now message r H) as (st & sp & pc & -> & _).
    split; [reflexivity|].
    cbn [decoded speed rpm]. now intros ->.
  - eexists. split; [vm_compute; reflexivity|]. split; reflexivity.
  - eexists. split; [vm_compute; reflexivity|].
    repeat split; try reflexivity; vm_compute; discriminate.
Qed.

Lemma rpm_derivation_witness :
  rpm (decoded 7 (js "Running") (js "15.50") (js "5"))
  = div (mul (speed (decoded 7 (js "Running") (js "15.50") (js "5"))) (of_Z 60))
        (mul (of_Z 2) Math_PI).
Proof.
  apply (proj1 (rpm_derivation 7)
               (js "Motor: Running  Speed: 15.50 Anomaly: 5%")).
  vm_compute. reflexivity.
Defined.

(** C10, as stated, fails: a line can contain a valid telemetry pattern
    after other text and still be rejected, because the regular
    expression matches the leftmost occurrence, here one with the status
    ["Walking"]. *)
Lemma earlier_match_rejected :
  well_formed (canonical (js "Running") (js "1.0") (js "5")) = true
  /\ checked 0 (js "Running") (js "1.0") (js "5")
     = Some (decoded 0 (js "Running") (js "1.0") (js "5"))
  /\ parseTelemetry 0
       (js "Motor: Walking Speed: 1.0 Anomaly: 0% "
        ++ text (canonical (js "Running") (js "1.0") (js "5")))
     = None
  /\ js "Motor: Walking Speed: 1.0 Anomaly: 0% "
       ++ text (canonical (js "Running") (js "1.0") (js "5"))
     = js "Motor: Walking Speed: 1.0 Anomaly: 0% Motor: Running  Speed: 1.0 Anomaly: 5%".
Proof. repeat split; vm_compute; reflexivity. Qed.

(** C10, amended.  The pattern is not anchored and its leftmost match is
    the one decoded: a message that holds a line of the wire format with
    valid tokens, after text in which no attempt of the pattern succeeds
    and before any text at all, is accepted, and the record is the one of
    the embedded tokens. *)
Theorem embedded_line_decoded
        (now : Z) (l : Line) (pre post : jsstring) :
  well_formed l = true ->
  In (status_token l) valid_statuses ->
  speed_ok (speed_token l) = true ->
  percent_ok (percent_token l) = true ->
  matches_before (trimStart pre) (text l ++ trimEnd post) = false ->
  parseTelemetry now (pre ++ text l ++ post)
  = Some (decoded now (status_token l) (speed_token l) (percent_token l)).
Proof.
  intros Hwf Hst Hsp Hpc Hpre.
  rewrite (parseTelemetry_around now l pre post Hwf Hpre).
  unfold checked. apply includes_In in Hst. now rewrite Hst, Hsp, Hpc.
Qed.

Lemma embedded_line_decoded_witness :
  parseTelemetry 7 (js "xx Motor: Running Speed: 1.0 Anomaly: 5% yy")
  = Some (decoded 7 (js "Running") (js "1.0") (js "5")).
Proof.
  apply (embedded_line_decoded 7
           {| motor_label := js "Motor:"; gap1 := js " ";
              status_token := js "Running"; gap2 := js " ";
              speed_label := js "Speed:"; gap3 := js " ";
              speed_token := js "1.0"; gap4 := js " ";
              anomaly_label := js "Anomaly:"; gap5 := js " ";
              percent_token := js "5" |} (js "xx ") (js " yy"));
    try (vm_compute; reflexivity).
  left. reflexivity.
Defined.

(** ** The command sender *)

Lemma TextEncoder_encode_bounded (n : nat) (s : jsstring) :
  (List.length s <= n)%nat ->
  TextEncoder_encode (s ++ [LF]) = TextEncoder_encode s ++ [LF].
Proof.
  revert s. induction n as [|n IH]; intros s Hn.
  - destruct s; [reflexivity|cbn in Hn; lia].
  - destruct s as [|c s]; [reflexivity|].
    cbn [List.length] in Hn.
    assert (Hs : TextEncoder_encode (s ++ [LF]) = TextEncoder_encode s ++ [LF])
      by (apply IH; lia).
    cbn [TextEncoder_encode app].
    destruct (c <? 128); [now rewrite Hs|].
    destruct (c <? 2048); [now rewrite Hs|].
    destruct (between 55296 56319 c).
    + destruct s as [|d s]; [reflexivity|].
      cbn [app]. cbn [app] in Hs.
      destruct (between 56320 57343 d).
      * cbn [List.length] in Hn. rewrite IH by lia. reflexivity.
      * now rewrite Hs.
    + destruct (between 56320 57343 c); now rewrite Hs.
Qed.

(** Framing: the encoding of [command + "\n"] is the encoding of the
    command followed by the one byte 10. *)
Lemma TextEncoder_encode_LF (s : jsstring) :
  TextEncoder_encode (s ++ [LF]) = TextEncoder_encode s ++ [LF].
Proof. now apply (TextEncoder_encode_bounded (List.length s)). Qed.

Lemma TextEncoder_encode_ascii (s : jsstring) :
  forallb (fun c => c <? 128) s = true -> TextEncoder_encode s = s.
Proof.
  induction s as [|c s IH]; [reflexivity|].
  cbn [forallb TextEncoder_encode]. intros H.
  apply andb_true_iff in H as [Hc Hs]. now rewrite Hc, IH.
Qed.

(** C9. Without a characteristic or while not connected, [sendCommand]
    sets the error to ["Not connected to device"], changes nothing else
    and writes nothing.  With a characteristic and connected, it hands
    the transport one write, the bytes of the command followed by the
    single byte of ["\n"]; the error is set exactly when the transport
    rejects that write.  For the five command tokens the bytes are the
    characters of the token. *)
Theorem send_gating_and_framing
        (now : Z) (command : jsstring) (st : State) :
  ((characteristicRef st = None \/ connected st = false) ->
   sendCommand now command st
   = (setError (Some (js "Not connected to device")) st, []))
  /\ (forall ch,
         characteristicRef st = Some ch ->
         connected st = true ->
         let data := TextEncoder_encode command ++ [LF] in
         snd (sendCommand now command st) = [data]
         /\ (writeValue ch data = None ->
             error (fst (sendCommand now command st)) = error st)
         /\ (writeValue ch data <> None ->
             error (fst (sendCommand now command st)) <> None))
  /\ (In command command_tokens ->
      TextEncoder_encode command ++ [LF] = command ++ [LF]).
Proof.
  split; [|split].
  - unfold sendCommand. intros [H|H]; rewrite H; [reflexivity|].
    now destruct (characteristicRef st).
  - intros ch Hch Hc data. unfold sendCommand.
    rewrite Hch, Hc, TextEncoder_encode_LF. cbn [negb]. fold data.
    destruct (writeValue ch data) as [err|]; repeat split;
      cbn; congruence.
  - intros Htok. f_equal. apply TextEncoder_encode_ascii.
    cbn in Htok.
    destruct Htok as [<-|[<-|[<-|[<-|[<-|[]]]]]]; reflexivity.
Qed.

Lemma send_gating_and_framing_witness :
  sendCommand 7 (js "M10") initial_state
  = (setError (Some (js "Not connected to device")) initial_state, [])
  /\ snd (sendCommand 7 (js "M10") connected_state) = [[77; 49; 48; 10]]
  /\ error (fst (sendCommand 7 (js "M10") connected_state)) = None
  /\ TextEncoder_encode (js "M10") ++ [LF] = js "M10" ++ [LF].
Proof.
  split; [|split; [|split]].
  - apply (proj1 (send_gating_and_framing 7 (js "M10") initial_state)).
    left. reflexivity.
  - apply (proj1 (proj1 (proj2 (send_gating_and_framing 7 (js "M10")
                                  connected_state))
                        accepting eq_refl eq_refl)).
  - apply (proj1 (proj2 (proj1 (proj2 (send_gating_and_framing 7 (js "M10")
                                         connected_state))
                               accepting eq_refl eq_refl))).
    reflexivity.
  - apply (proj2 (proj2 (send_gating_and_framing 7 (js "M10") connected_state))).
    right. left. reflexivity.
Defined.

(* ================================================================== *)
(** * Part III. Further properties of the code                          *)
(* ================================================================== *)

(** ** What the pattern matches *)

Section MatcherInversion.
Context {R : Type}.

Lemma greedy_inv (p : code_unit -> bool) (s : jsstring)
      (k : jsstring -> option R) (x : R) :
  greedy p s k = Some x ->
  exists w s', s = w ++ s' /\ forallb p w = true /\ k s' = Some x.
Proof.
  induction s as [|c s IH]; cbn [greedy]; intros H.
  - now exists [], [].
  - destruct (p c) eqn:Hc; [|now exists [], (c :: s)].
    destruct (greedy p s k) as [r|] eqn:Hg.
    + injection H as ->. destruct (IH eq_refl) as (w & s' & -> & Hw & Hk).
      exists (c :: w), s'. cbn. now rewrite Hc.
    + now exists [], (c :: s).
Qed.

Lemma matcher_star_inv (ic : bool) (p : code_unit -> bool) (r : Regex)
      (s : jsstring) (caps : Captures)
      (k : jsstring -> Captures -> option R) (x : R) :
  matcher ic (Seq (Star (CharSet p)) r) s caps k = Some x ->
  exists w s', s = w ++ s' /\ forallb p w = true
               /\ matcher ic r s' caps k = Some x.
Proof. cbn [matcher atom_matches]. apply greedy_inv. Qed.

Lemma matcher_plus_inv (ic : bool) (p : code_unit -> bool) (r : Regex)
      (s : jsstring) (caps : Captures)
      (k : jsstring -> Captures -> option R) (x : R) :
  matcher ic (Seq (Plus (CharSet p)) r) s caps k = Some x ->
  exists w s', s = w ++ s' /\ run p w = true
               /\ matcher ic r s' caps k = Some x.
Proof.
  cbn [matcher atom_matches]. destruct s as [|c s]; [discriminate|].
  destruct (p c) eqn:Hc; [|discriminate]. intros H.
  apply greedy_inv in H as (w & s' & -> & Hw & Hk).
  exists (c :: w), s'. cbn. now rewrite Hc.
Qed.

Lemma matcher_group_plus_inv (ic : bool) (n : nat) (p : code_unit -> bool)
      (r : Regex) (s : jsstring) (caps : Captures)
      (k : jsstring -> Captures -> option R) (x : R) :
  matcher ic (Seq (Group n (Plus (CharSet p))) r) s caps k = Some x ->
  exists w s', s = w ++ s' /\ run p w = true
               /\ matcher ic r s' (set_capture n w caps) k = Some x.
Proof.
  cbn [matcher atom_matches]. destruct s as [|c s]; [discriminate|].
  destruct (p c) eqn:Hc; [|discriminate]. intros H.
  apply greedy_inv in H as (w & s' & -> & Hw & Hk).
  exists (c :: w), s'. cbn beta in Hk.
  pose proof (consumed_app (c :: w) s') as Hcons. cbn [app] in Hcons.
  rewrite Hcons in Hk.
  cbn. now rewrite Hc.
Qed.

Lemma same_letters_cons (c d : code_unit) (a b : jsstring) :
  Canonicalize true c = Canonicalize true d ->
  same_letters a b = true -> same_letters (c :: a) (d :: b) = true.
Proof.
  intros Hc Hab. apply same_letters_spec in Hab.
  unfold same_letters, string_eqb. cbn [map]. rewrite Hc, Hab.
  now destruct (list_eq_dec N.eq_dec _ _).
Qed.

Lemma matcher_lit_inv (pat s : jsstring) (r : Regex) (caps : Captures)
      (k : jsstring -> Captures -> option R) (x : R) :
  matcher true (Seq (lit pat) r) s caps k = Some x ->
  exists lab s', s = lab ++ s' /\ same_letters lab pat = true
                 /\ matcher true r s' caps k = Some x.
Proof.
  revert s. induction pat as [|c pat IH]; intros s H.
  - now exists [], s.
  - cbn [lit matcher atom_matches] in H.
    destruct s as [|d s]; [discriminate|].
    destruct (N.eqb_spec (Canonicalize true d) (Canonicalize true c)) as [E|];
      [|discriminate].
    destruct (IH s H) as (lab & s' & -> & Hl & Hk).
    exists (d :: lab), s'. repeat split; [|assumption].
    now apply same_letters_cons.
Qed.
End MatcherInversion.

(** An attempt succeeds only at the start of a well-formed line. *)
Lemma match_here_inv (s : jsstring) (caps : Captures) :
  match_here telemetry_regex s = Some caps ->
  exists l rest,
    well_formed l = true /\ s = text l ++ rest
    /\ caps = [Some (text l); Some (status_token l);
               Some (speed_token l); Some (percent_token l)].
Proof.
  unfold match_here. cbn [matcher].
  unfold telemetry_regex. cbn [source ignoreCase ngroups seq]. intros H.
  apply matcher_lit_inv in H as (l1 & s1 & -> & H1 & H).
  apply matcher_star_inv in H as (g1 & s2 & -> & G1 & H).
  apply matcher_group_plus_inv in H as (st & s3 & -> & T1 & H).
  apply matcher_plus_inv in H as (g2 & s4 & -> & G2 & H).
  apply matcher_lit_inv in H as (l2 & s5 & -> & H2 & H).
  apply matcher_star_inv in H as (g3 & s6 & -> & G3 & H).
  apply matcher_group_plus_inv in H as (sp & s7 & -> & T2 & H).
  apply matcher_plus_inv in H as (g4 & s8 & -> & G4 & H).
  apply matcher_lit_inv in H as (l3 & s9 & -> & H3 & H).
  apply matcher_star_inv in H as (g5 & s10 & -> & G5 & H).
  apply matcher_group_plus_inv in H as (pc & s11 & -> & T3 & H).
  cbn [matcher atom_matches] in H.
  destruct s11 as [|c rest]; [discriminate|].
  destruct (N.eqb_spec (Canonicalize true c) (Canonicalize true (cu "%")))
    as [E|]; [|discriminate].
  assert (Hc : c = cu "%").
  { revert E. unfold Canonicalize, between. cbn [andb].
    destruct (N.leb_spec 97 c), (N.leb_spec c 122); cbn; lia. }
  subst c.
  set (l := {| motor_label := l1; gap1 := g1; status_token := st; gap2 := g2;
               speed_label := l2; gap3 := g3; speed_token := sp; gap4 := g4;
               anomaly_label := l3; gap5 := g5; percent_token := pc |}).
  assert (Ht : l1 ++ g1 ++ st ++ g2 ++ l2 ++ g3 ++ sp ++ g4 ++ l3 ++ g5
                  ++ pc ++ cu "%" :: rest = text l ++ rest).
  { unfold text. cbn [motor_label gap1 status_token gap2 speed_label gap3
                        speed_token gap4 anomaly_label gap5 percent_token l].
    now rewrite <- !app_assoc. }
  rewrite Ht in H. rewrite consumed_app in H.
  exists l, rest. split; [|split; [exact Ht|]].
  - unfold well_formed.
    cbn [motor_label gap1 status_token gap2 speed_label gap3
         speed_token gap4 anomaly_label gap5 percent_token l].
    now rewrite H1, G1, T1, G2, H2, G3, T2, G4, H3, G5, T3.
  - injection H as <-. reflexivity.
Qed.

Lemma String_match_inv (s : jsstring) (caps : Captures) :
  String_match telemetry_regex s = Some caps ->
  exists pre rest,
    s = pre ++ rest /\ matches_before pre rest = false
    /\ match_here telemetry_regex rest = Some caps.
Proof.
  induction s as [|c s IH]; cbn [String_match]; intros H.
  - exists [], []. destruct (match_here telemetry_regex []); [auto|discriminate].
  - destruct (match_here telemetry_regex (c :: s)) as [m|] eqn:Hm.
    + exists [], (c :: s). now rewrite Hm.
    + destruct (IH H) as (pre & rest & -> & Hpre & Hrest).
      exists (c :: pre), rest. cbn [matches_before app]. now rewrite Hm.
Qed.

Lemma String_match_found (pre rest : jsstring) :
  match_here telemetry_regex rest <> None ->
  String_match telemetry_regex (pre ++ rest) <> None.
Proof.
  intros H. induction pre as [|c pre IH]; cbn [app].
  - destruct rest; cbn [String_match];
      now destruct (match_here telemetry_regex _).
  - cbn [String_match].
    now destruct (match_here telemetry_regex (c :: pre ++ rest)).
Qed.

(** ** Rounding integers to binary64 *)

Section Rounding.
Local Open Scope Z_scope.

Lemma digits2_pos_bounds (p : positive) :
  2 ^ (Zpos (digits2_pos p) - 1) <= Zpos p < 2 ^ Zpos (digits2_pos p).
Proof.
  induction p as [p IH|p IH|]; cbn [digits2_pos]; [| |cbn; lia].
  all: rewrite Pos2Z.inj_succ;
    replace (Z.succ (Zpos (digits2_pos p)) - 1) with (Z.succ (Zpos (digits2_pos p) - 1)) by lia;
    rewrite !Z.pow_succ_r by lia; lia.
Qed.

Lemma Zdigits2_53 (m : Z) :
  2 ^ 52 <= m <= 2 ^ 53 ->
  Zdigits2 m = 53 /\ m < 2 ^ 53 \/ Zdigits2 m = 54 /\ m = 2 ^ 53.
Proof.
  intros Hm. destruct m as [|p|p]; try (cbn in Hm; lia).
  cbn [Zdigits2]. pose proof (digits2_pos_bounds p) as Hd.
  set (D := Zpos (digits2_pos p)) in *.
  assert (HD : 0 < D) by (unfold D; lia).
  destruct (Z.eq_dec (Zpos p) (2 ^ 53)) as [E|Hne].
  - right. split; [|assumption].
    destruct (Z.lt_trichotomy D 54) as [Hl|[He|Hg]]; [|assumption|].
    + assert (2 ^ D <= 2 ^ 53) by (apply Z.pow_le_mono_r; lia). lia.
    + assert (2 ^ 54 <= 2 ^ (D - 1)) by (apply Z.pow_le_mono_r; lia).
      change (2 ^ 54) with (2 * 2 ^ 53) in *. lia.
  - left. split; [|lia].
    destruct (Z.lt_trichotomy D 53) as [Hl|[He|Hg]]; [|assumption|].
    + assert (2 ^ D <= 2 ^ 52) by (apply Z.pow_le_mono_r; lia). lia.
    + assert (2 ^ 53 <= 2 ^ (D - 1)) by (apply Z.pow_le_mono_r; lia). lia.
Qed.

Lemma shr_1_m (mrs : shr_record) :
  0 <= shr_m mrs -> shr_m (shr_1 mrs) = shr_m mrs / 2.
Proof.
  destruct mrs as [m r s]. cbn [shr_m]. intros Hm.
  destruct m as [|[p|p|]|p]; cbn [shr_1 shr_m]; try lia; try reflexivity.
  - rewrite (Pos2Z.inj_xI p). apply Z.div_unique with (r := 1); lia.
  - rewrite (Pos2Z.inj_xO p). apply Z.div_unique with (r := 0); lia.
Qed.

Lemma iter_shr_1_m (k : positive) (mrs : shr_record) :
  0 <= shr_m mrs ->
  shr_m (iter_pos shr_1 k mrs) = shr_m mrs / 2 ^ Zpos k.
Proof.
  revert mrs. induction k as [k IH|k IH|]; intros mrs Hm; cbn [iter_pos].
  - assert (H1 : 0 <= shr_m (shr_1 mrs))
      by (rewrite shr_1_m by assumption; apply Z.div_pos; lia).
    assert (H2 : 0 <= shr_m (iter_pos shr_1 k (shr_1 mrs)))
      by (rewrite IH by assumption; apply Z.div_pos; lia).
    assert (E : 2 ^ Zpos k~1 = 2 * 2 ^ Zpos k * 2 ^ Zpos k).
    { rewrite (Pos2Z.inj_xI k).
      replace (2 * Zpos k + 1) with (1 + Zpos k + Zpos k) by lia.
      now rewrite !Z.pow_add_r by lia. }
    rewrite IH, IH, shr_1_m, E by assumption.
    assert (0 < 2 ^ Zpos k) by (apply Z.pow_pos_nonneg; lia).
    rewrite !Z.div_div by lia. f_equal. ring.
  - assert (H1 : 0 <= shr_m (iter_pos shr_1 k mrs))
      by (rewrite IH by assumption; apply Z.div_pos; lia).
    assert (E : 2 ^ Zpos k~0 = 2 ^ Zpos k * 2 ^ Zpos k).
    { rewrite (Pos2Z.inj_xO k).
      replace (2 * Zpos k) with (Zpos k + Zpos k) by lia.
      now rewrite !Z.pow_add_r by lia. }
    rewrite IH, IH, E by assumption.
    assert (0 < 2 ^ Zpos k) by (apply Z.pow_pos_nonneg; lia).
    now rewrite Z.div_div by lia.
  - now rewrite shr_1_m.
Qed.

(** Shifting right by [n] divides the mantissa by [2^n]. *)
Lemma shr_spec (m e n : Z) :
  0 <= m -> 0 <= n ->
  shr_m (fst (shr (Build_shr_record m false false) e n)) = m / 2 ^ n
  /\ snd (shr (Build_shr_record m false false) e n) = e + n.
Proof.
  intros Hm Hn. destruct n as [|p|p]; [| |lia]; cbn [shr fst snd].
  - cbn [shr_m]. rewrite Z.div_1_r. lia.
  - split; [|reflexivity]. now rewrite iter_shr_1_m.
Qed.

Lemma round_nearest_even_bounds (m : Z) (l : location) :
  m <= round_nearest_even m l <= m + 1.
Proof.
  unfold round_nearest_even.
  destruct l as [|[| |]]; try destruct (Z.even m); lia.
Qed.

(** A mantissa of 53 bits or more rounds to a value that is not below
    its own exponent: never to zero and never to [NaN]. *)
Lemma binary_round_aux_lower (s : bool) (mz : positive) (ez : Z) :
  53 <= Zpos (digits2_pos mz) -> -1074 <= ez ->
  match binary_round_aux prec emax s (Zpos mz) ez loc_Exact with
  | S754_infinity s' => s' = s
  | S754_finite s' _ e => s' = s /\ ez <= e
  | _ => False
  end.
Proof.
  intros HD He. unfold binary_round_aux, shr_fexp.
  pose proof (digits2_pos_bounds mz) as Hb.
  cbn [Zdigits2 shr_record_of_loc].
  set (D := Zpos (digits2_pos mz)) in *.
  assert (Hn : fexp prec emax (D + ez) - ez = D - 53)
    by (unfold fexp, emin, prec, emax; lia).
  rewrite Hn.
  destruct (shr_spec (Zpos mz) ez (D - 53)) as [Hm1 He1]; [lia..|].
  destruct (shr {| shr_m := Zpos mz; shr_r := false; shr_s := false |} ez (D - 53))
    as [mrs1 e1]. cbn [fst snd] in Hm1, He1.
  assert (Hm1' : 2 ^ 52 <= shr_m mrs1 < 2 ^ 53).
  { rewrite Hm1.
    assert (Hp : 2 ^ (D - 1) = 2 ^ 52 * 2 ^ (D - 53)).
    { rewrite <- Z.pow_add_r by lia. f_equal. lia. }
    assert (Hq : 2 ^ D = 2 ^ 53 * 2 ^ (D - 53)).
    { rewrite <- Z.pow_add_r by lia. f_equal. lia. }
    assert (0 < 2 ^ (D - 53)) by (apply Z.pow_pos_nonneg; lia).
    split.
    - apply Z.div_le_lower_bound; lia.
    - apply Z.div_lt_upper_bound; lia. }
  pose proof (round_nearest_even_bounds (shr_m mrs1) (loc_of_shr_record mrs1)) as Hr.
  set (m2 := round_nearest_even (shr_m mrs1) (loc_of_shr_record mrs1)) in *.
  assert (Hm2 : 2 ^ 52 <= m2 <= 2 ^ 53) by lia.
  destruct (Zdigits2_53 m2 Hm2) as [[Hd2 Hlt]|[Hd2 Heq]].
  - assert (Hn2 : fexp prec emax (Zdigits2 m2 + e1) - e1 = 0)
      by (rewrite Hd2; unfold fexp, emin, prec, emax; lia).
    rewrite Hn2. cbn [shr shr_m].
    destruct m2 as [|p2|p2]; try (cbn in Hm2; lia).
    unfold emax, prec.
    destruct (e1 <=? 1024 - 53); [split; [reflexivity|lia]|reflexivity].
  - assert (Hn2 : fexp prec emax (Zdigits2 m2 + e1) - e1 = 1)
      by (rewrite Hd2; unfold fexp, emin, prec, emax; lia).
    rewrite Hn2, Heq. cbn [shr iter_pos]. cbn.
    destruct (e1 + 1 <=? 971) eqn:E; [split; [reflexivity|lia]|reflexivity].
Qed.

Lemma digits2_pos_shift (p d : positive) :
  digits2_pos (Pos.iter xO p d) = (digits2_pos p + d)%positive.
Proof.
  induction d as [|d IH] using Pos.peano_ind.
  - cbn. now rewrite Pos.add_1_r.
  - rewrite Pos.iter_succ. cbn [digits2_pos]. rewrite IH. lia.
Qed.

(** An integer from 128 on rounds to infinity or to a value whose
    exponent is above that of every value below 128. *)
Lemma binary_round_large (p : positive) :
  128 <= Zpos p ->
  match binary_round prec emax false p 0 with
  | S754_infinity s' => s' = false
  | S754_finite s' _ e => s' = false /\ -45 <= e
  | _ => False
  end.
Proof.
  intros Hp. unfold binary_round, shl_align.
  pose proof (digits2_pos_bounds p) as Hb.
  set (D := Zpos (digits2_pos p)) in *.
  assert (HD : 8 <= D).
  { destruct (Z.le_gt_cases 8 D) as [|Hlt]; [assumption|].
    assert (2 ^ D <= 2 ^ 7) by (apply Z.pow_le_mono_r; lia).
    change (2 ^ 7) with 128 in *. lia. }
  assert (Hf : fexp prec emax (D + 0) = D - 53)
    by (unfold fexp, emin, prec, emax; lia).
  rewrite Hf, Z.sub_0_r.
  destruct (D - 53) as [|q|q] eqn:Eq.
  - pose proof (binary_round_aux_lower false p 0) as H.
    fold D in H. specialize (H ltac:(lia) ltac:(lia)).
    destruct (binary_round_aux prec emax false (Zpos p) 0 loc_Exact);
      try contradiction; [assumption|]. destruct H. split; [assumption|lia].
  - pose proof (binary_round_aux_lower false p 0) as H.
    fold D in H. specialize (H ltac:(lia) ltac:(lia)).
    destruct (binary_round_aux prec emax false (Zpos p) 0 loc_Exact);
      try contradiction; [assumption|]. destruct H. split; [assumption|lia].
  - pose proof (binary_round_aux_lower false (Pos.iter xO p q) (Zneg q)) as H.
    rewrite digits2_pos_shift, Pos2Z.inj_add in H. fold D in H.
    specialize (H ltac:(lia) ltac:(lia)).
    destruct (binary_round_aux prec emax false (Zpos (Pos.iter xO p q)) (Zneg q) loc_Exact);
      try contradiction; [assumption|]. destruct H. split; [assumption|lia].
Qed.
End Rounding.

(** ** The tokens as numbers *)

Lemma span_all (p : code_unit -> bool) (s : jsstring) :
  forallb p s = true -> span p s = (s, []).
Proof.
  induction s as [|c s IH]; [reflexivity|]. cbn [forallb span]. intros H.
  apply andb_true_iff in H as [Hc Hs]. now rewrite Hc, IH.
Qed.

Lemma trimStart_stops (s : jsstring) : stops WhiteSpace s -> trimStart s = s.
Proof. destruct s as [|c s]; [reflexivity|]. cbn. now intros ->. Qed.

Lemma digits_value_nonneg (ds : jsstring) : (0 <= digits_value ds)%Z.
Proof.
  unfold digits_value.
  assert (H : forall acc, (0 <= acc)%Z ->
            (0 <= fold_left (fun a c => 10 * a + digit_value c) ds acc)%Z).
  { induction ds as [|c ds IH]; intros acc Hacc; [assumption|].
    cbn [fold_left]. apply IH. unfold digit_value. lia. }
  now apply H.
Qed.

Lemma of_decimal_integer (n : Z) : (0 <= n)%Z -> of_decimal false n 0 = of_Z n.
Proof. destruct n; [reflexivity..|lia]. Qed.

Lemma sign_none (c : code_unit) (s : jsstring) :
  c <> 45 -> c <> 43 -> sign (c :: s) = (false, c :: s).
Proof.
  intros H1 H2. cbn [sign].
  change (cu "-") with 45. change (cu "+") with 43.
  destruct (N.eqb_spec c 45); [contradiction|].
  now destruct (N.eqb_spec c 43).
Qed.

(** A run of digits reads as its value, rounded. *)
Lemma parseInt10_digits (ds : jsstring) :
  run Digit ds = true -> parseInt10 ds = of_Z (digits_value ds).
Proof.
  intros Hds. unfold parseInt10.
  destruct ds as [|c ds]; [discriminate|].
  pose proof Hds as Hall. cbn [run] in Hall.
  pose proof Hall as Hc. cbn [forallb] in Hc. apply andb_true_iff in Hc as [Hc _].
  destruct class_disjoint as (_ & _ & _ & _ & Hdw).
  rewrite trimStart_stops by (cbn; now apply Hdw).
  apply Digit_range in Hc.
  rewrite sign_none by lia. cbn iota.
  rewrite (span_all Digit _ Hall).
  apply of_decimal_integer, digits_value_nonneg.
Qed.

Lemma gt_100_large (p : positive) :
  (101 <= Zpos p)%Z -> gt (of_Z (Zpos p)) (of_Z 100) = true.
Proof.
  intros Hp. destruct (Z.le_gt_cases 128 (Zpos p)) as [Hbig|Hsmall].
  - pose proof (binary_round_large p Hbig) as H.
    unfold gt, of_Z, binary_normalize.
    destruct (binary_round prec emax false p 0) as [| s | | s m e];
      try contradiction.
    + now subst s.
    + destruct H as [-> He]. vm_compute binary_round.
      unfold SFltb, SFcompare.
      now destruct (Z.compare_spec (-46) e); try lia.
  - assert (H : exists k : nat, (k < 27)%nat /\ Zpos p = (101 + Z.of_nat k)%Z)
      by (exists (Z.to_nat (Zpos p - 101)); lia).
    destruct H as (k & Hk & E).
    assert (Hp' : p = Z.to_pos (101 + Z.of_nat k)) by (rewrite <- E; reflexivity).
    rewrite Hp'. clear -Hk.
    do 27 (destruct k as [|k]; [vm_compute; reflexivity|]). lia.
Qed.

(** A percent token passes the check exactly when its value is at most
    100. *)
Lemma percent_ok_range (ds : jsstring) :
  run Digit ds = true ->
  percent_ok ds = true ->
  (0 <= digits_value ds <= 100)%Z.
Proof.
  intros Hds Hok. pose proof (digits_value_nonneg ds) as H0.
  split; [assumption|].
  unfold percent_ok in Hok. rewrite (parseInt10_digits ds Hds) in Hok.
  destruct (digits_value ds) as [|p|p]; [lia| |lia].
  destruct (Z.le_gt_cases (Zpos p) 100) as [|Hgt]; [assumption|].
  rewrite (gt_100_large p) in Hok by lia.
  now rewrite !orb_true_r in Hok.
Qed.

Lemma gt_50_integer (n : Z) :
  (0 <= n <= 100)%Z -> gt (of_Z n) (of_Z 50) = (50 <? n)%Z.
Proof.
  intros Hn.
  assert (H : exists k : nat, (k <= 100)%nat /\ n = Z.of_nat k)
    by (exists (Z.to_nat n); lia).
  destruct H as (k & Hk & ->). clear Hn.
  do 101 (destruct k as [|k]; [vm_compute; reflexivity|]). lia.
Qed.

(** What rounding returns carries the sign it was given. *)
Lemma binary_round_aux_sign (s : bool) (m e : Z) (l : location) :
  match binary_round_aux prec emax s m e l with
  | S754_zero s' | S754_infinity s' | S754_finite s' _ _ => s' = s
  | S754_nan => True
  end.
Proof.
  unfold binary_round_aux.
  destruct (shr_fexp prec emax m e l) as [mrs' e'].
  destruct (shr_fexp prec emax _ e' loc_Exact) as [mrs'' e''].
  destruct (shr_m mrs''); [reflexivity| |exact I].
  now destruct (e'' <=? emax - prec)%Z.
Qed.

Lemma of_decimal_sign (m e : Z) :
  match of_decimal false m e with
  | S754_zero s' | S754_infinity s' | S754_finite s' _ _ => s' = false
  | S754_nan => True
  end.
Proof.
  unfold of_decimal. destruct m as [|p|p]; [reflexivity| |reflexivity].
  destruct e as [|k|k].
  - unfold binary_round.
    destruct (shl_align p 0 _) as [mz ez]. apply binary_round_aux_sign.
  - unfold binary_round.
    destruct (shl_align (p * 10 ^ k) 0 _) as [mz ez]. apply binary_round_aux_sign.
  - unfold SFdiv.
    destruct (SFdiv_core_binary prec emax (Zpos p) 0 (Zpos (10 ^ k)) 0)
      as [[mz ez] lz].
    apply (binary_round_aux_sign false).
Qed.

(** A run of digits and dots never reads as a negative number or as
    minus zero. *)
Lemma parseFloat_token_sign (sp : jsstring) :
  run DigitOrDot sp = true ->
  match parseFloat sp with
  | S754_zero s' | S754_infinity s' | S754_finite s' _ _ => s' = false
  | S754_nan => True
  end.
Proof.
  intros Hsp. unfold parseFloat.
  destruct sp as [|c sp]; [discriminate|].
  cbn [run forallb] in Hsp. apply andb_true_iff in Hsp as [Hc _].
  destruct class_disjoint as (_ & _ & Hdw & _).
  rewrite trimStart_stops by (cbn; now apply Hdw).
  apply DigitOrDot_range in Hc.
  rewrite sign_none by lia. cbn iota.
  replace (startsWith (js "Infinity") (c :: sp)) with false.
  2:{ change (js "Infinity") with (73 :: js "nfinity"). cbn [startsWith].
      destruct (N.eqb_spec 73 c); [lia|reflexivity]. }
  destruct (span Digit (c :: sp)) as [ip r1].
  destruct (match r1 with
            | [] => ([], [])
            | c0 :: r => if c0 =? cu "." then span Digit r else ([], r1)
            end) as [fp r2].
  destruct (ip ++ fp); [exact I|]. apply of_decimal_sign.
Qed.

(** ** The validator, completely *)

Lemma parseTelemetry_line (now : Z) (message : jsstring) (l : Line)
      (pre post : jsstring) :
  trim message = pre ++ text l ++ post ->
  well_formed l = true ->
  matches_before pre (text l ++ post) = false ->
  parseTelemetry now message
  = checked now (status_token l) (speed_token l) (percent_token l).
Proof.
  intros Ht Hwf Hpre. unfold parseTelemetry.
  rewrite Ht, String_match_text by assumption.
  cbn [capture nth]. unfold checked, speed_ok, percent_ok, decoded.
  destruct (includes valid_statuses (status_token l)); [|reflexivity].
  cbn [negb andb].
  destruct (isNaN (parseFloat (speed_token l))
            || lt (parseFloat (speed_token l)) (of_Z 0)
            || gt (parseFloat (speed_token l)) (of_Z 25)); [reflexivity|].
  cbn [negb andb].
  now destruct (isNaN (parseInt10 (percent_token l))
            || lt (parseInt10 (percent_token l)) (of_Z 0)
            || gt (parseInt10 (percent_token l)) (of_Z 100)).
Qed.

Lemma String_match_line (s : jsstring) :
  String_match telemetry_regex s <> None ->
  exists pre l post,
    s = pre ++ text l ++ post /\ well_formed l = true
    /\ matches_before pre (text l ++ post) = false.
Proof.
  destruct (String_match telemetry_regex s) as [m|] eqn:Hm; [intros _|congruence].
  apply String_match_inv in Hm as (pre & rest & -> & Hpre & Hrest).
  apply match_here_inv in Hrest as (l & post & Hwf & -> & _).
  now exists pre, l, post.
Qed.

Lemma parseTelemetry_inv (now : Z) (message : jsstring) (r : MotorTelemetry) :
  parseTelemetry now message = Some r ->
  exists pre l post,
    trim message = pre ++ text l ++ post
    /\ well_formed l = true
    /\ matches_before pre (text l ++ post) = false
    /\ checked now (status_token l) (speed_token l) (percent_token l) = Some r.
Proof.
  intros H.
  assert (Hm : String_match telemetry_regex (trim message) <> None).
  { unfold parseTelemetry in H.
    now destruct (String_match telemetry_regex (trim message)). }
  destruct (String_match_line _ Hm) as (pre & l & post & Ht & Hwf & Hpre).
  exists pre, l, post. repeat split; try assumption.
  now rewrite <- (parseTelemetry_line now message l pre post Ht Hwf Hpre).
Qed.

(** X1. The pattern, tried at one position, succeeds exactly when the
    text from there on starts with a line of the wire format (labels in
    any letter case, a word, a run of digits and dots, a run of digits,
    white space between them), whatever follows the [%]; the match is
    that line and the three groups are its three tokens. *)
Theorem pattern_matches_wire_lines (s : jsstring) (caps : Captures) :
  match_here telemetry_regex s = Some caps
  <-> exists l rest,
      well_formed l = true /\ s = text l ++ rest
      /\ caps = [Some (text l); Some (status_token l);
                 Some (speed_token l); Some (percent_token l)].
Proof.
  split; [apply match_here_inv|].
  intros (l & rest & Hwf & -> & ->). now apply match_here_text.
Qed.

Lemma pattern_matches_wire_lines_witness :
  match_here telemetry_regex (js "motor:x Speed:.. anomaly:007%%")
  = Some [Some (js "motor:x Speed:.. anomaly:007%"); Some (js "x");
          Some (js ".."); Some (js "007")].
Proof.
  apply (proj2 (pattern_matches_wire_lines _ _)).
  exists {| motor_label := js "motor:"; gap1 := [];
            status_token := js "x"; gap2 := js " ";
            speed_label := js "Speed:"; gap3 := [];
            speed_token := js ".."; gap4 := js " ";
            anomaly_label := js "anomaly:"; gap5 := [];
            percent_token := js "007" |}, (js "%").
  repeat split.
Defined.

(** X2. [parseTelemetry] returns a record exactly when the trimmed
    message holds a line of the wire format at the leftmost position
    where the pattern matches and the three tokens of that line pass the
    checks (a known status, a speed in [0, 25], a percentage in
    [0, 100]); the record is the one decoded from these tokens. *)
Theorem parseTelemetry_accepts_iff (now : Z) (message : jsstring)
        (r : MotorTelemetry) :
  parseTelemetry now message = Some r
  <-> exists pre l post,
      trim message = pre ++ text l ++ post
      /\ well_formed l = true
      /\ matches_before pre (text l ++ post) = false
      /\ includes valid_statuses (status_token l) = true
      /\ speed_ok (speed_token l) = true
      /\ percent_ok (percent_token l) = true
      /\ r = decoded now (status_token l) (speed_token l) (percent_token l).
Proof.
  split.
  - intros H.
    destruct (parseTelemetry_inv now message r H)
      as (pre & l & post & Ht & Hwf & Hpre & Hc).
    exists pre, l, post. unfold checked in Hc.
    destruct (includes valid_statuses (status_token l)); [|discriminate].
    destruct (speed_ok (speed_token l)); [|discriminate].
    destruct (percent_ok (percent_token l)); [|discriminate].
    injection Hc as <-. repeat split; assumption.
  - intros (pre & l & post & Ht & Hwf & Hpre & Hst & Hsp & Hpc & ->).
    rewrite (parseTelemetry_line now message l pre post Ht Hwf Hpre).
    unfold checked. now rewrite Hst, Hsp, Hpc.
Qed.

Lemma parseTelemetry_accepts_iff_witness :
  parseTelemetry 7 (js "  ## Motor: Error  Speed: 0.00 Anomaly: 95% (raw)  ")
  = Some (decoded 7 (js "Error") (js "0.00") (js "95")).
Proof.
  apply (proj2 (parseTelemetry_accepts_iff 7 _ _)).
  exists (js "## "), (canonical (js "Error") (js "0.00") (js "95")), (js " (raw)").
  repeat split; vm_compute; reflexivity.
Defined.

(** X3. [isValidTelemetryFormat] accepts exactly the messages that hold
    a line of the wire format somewhere, with any text before and after
    it and with tokens of any value: it does not check the status, the
    speed range or the percentage range, so it accepts every message
    [parseTelemetry] accepts and also messages that [parseTelemetry]
    rejects. *)
Theorem valid_format_iff (message : jsstring) :
  (isValidTelemetryFormat message = true
   <-> exists pre l post,
       trim message = pre ++ text l ++ post /\ well_formed l = true)
  /\ (forall now, parseTelemetry now message <> None ->
                  isValidTelemetryFormat message = true).
Proof.
  unfold isValidTelemetryFormat. split; [split|].
  - intros H.
    assert (Hm : String_match telemetry_regex (trim message) <> None)
      by (destruct (String_match telemetry_regex (trim message)); congruence).
    destruct (String_match_line _ Hm) as (pre & l & post & Ht & Hwf & _).
    now exists pre, l, post.
  - intros (pre & l & post & Ht & Hwf).
    assert (Hm : String_match telemetry_regex (trim message) <> None).
    { rewrite Ht. apply String_match_found.
      now rewrite (match_here_text l post Hwf). }
    now destruct (String_match telemetry_regex (trim message)).
  - intros now H. unfold parseTelemetry in H.
    now destruct (String_match telemetry_regex (trim message)).
Qed.

Lemma valid_format_iff_witness :
  isValidTelemetryFormat (js "log: Motor: Walking Speed: 99 Anomaly: 150% !") = true
  /\ parseTelemetry 7 (js "log: Motor: Walking Speed: 99 Anomaly: 150% !") = None.
Proof.
  split; [|vm_compute; reflexivity].
  apply (proj2 (proj1 (valid_format_iff _))).
  exists (js "log: "),
    {| motor_label := js "Motor:"; gap1 := js " ";
       status_token := js "Walking"; gap2 := js " ";
       speed_label := js "Speed:"; gap3 := js " ";
       speed_token := js "99"; gap4 := js " ";
       anomaly_label := js "Anomaly:"; gap5 := js " ";
       percent_token := js "150" |}, (js " !").
  split; vm_compute; reflexivity.
Defined.

(** X4. Every record [parseTelemetry] returns, from any message, holds a
    percentage that is an integer from 0 to 100, exactly represented,
    with [anomalyDetected] set exactly from 51 on; its speed is plus zero
    or a positive finite number, never [NaN], negative, minus zero or
    infinite, and not above 25; its time stamp is the clock reading. *)
Theorem record_invariants (now : Z) (message : jsstring) (r : MotorTelemetry) :
  parseTelemetry now message = Some r ->
  (exists n : Z,
      (0 <= n <= 100)%Z
      /\ anomalyPercentage r = of_Z n
      /\ anomalyDetected r = (50 <? n)%Z)
  /\ (speed r = S754_zero false \/ exists m e, speed r = S754_finite false m e)
  /\ gt (speed r) (of_Z 25) = false
  /\ timestamp r = now.
Proof.
  intros H.
  destruct (parseTelemetry_inv now message r H)
    as (pre & l & post & _ & Hwf & _ & Hc).
  unfold checked in Hc.
  destruct (includes valid_statuses (status_token l)); [|discriminate].
  destruct (speed_ok (speed_token l)) eqn:Hsp; [|discriminate].
  destruct (percent_ok (percent_token l)) eqn:Hpc; [|discriminate].
  injection Hc as <-. cbn [decoded anomalyPercentage anomalyDetected speed timestamp].
  unfold well_formed in Hwf. split_andb.
  repeat split.
  - exists (digits_value (percent_token l)).
    pose proof (percent_ok_range _ ltac:(eassumption) Hpc) as Hn.
    rewrite parseInt10_digits by assumption.
    split; [assumption|]. split; [reflexivity|]. now apply gt_50_integer.
  - pose proof (parseFloat_token_sign (speed_token l) ltac:(eassumption)) as Hs.
    unfold speed_ok in Hsp.
    destruct (parseFloat (speed_token l)) as [s|s| |s m e]; subst;
      [now left|discriminate|discriminate|right; eauto].
  - unfold speed_ok in Hsp. apply negb_true_iff in Hsp.
    now apply orb_false_iff in Hsp as [_ Hsp].
Qed.

Lemma record_invariants_witness :
  exists n : Z,
    (0 <= n <= 100)%Z
    /\ anomalyPercentage (decoded 7 (js "Error") (js "0.00") (js "95")) = of_Z n
    /\ anomalyDetected (decoded 7 (js "Error") (js "0.00") (js "95")) = (50 <? n)%Z.
Proof.
  refine (proj1 (record_invariants 7 (js "Motor: Error  Speed: 0.00 Anomaly: 95%")
                   (decoded 7 (js "Error") (js "0.00") (js "95")) _)).
  vm_compute. reflexivity.
Defined.

(** ** White space around a message *)

Lemma trimStart_all (s : jsstring) :
  forallb WhiteSpace s = true -> trimStart s = [].
Proof.
  induction s as [|c s IH]; [reflexivity|]. cbn [forallb trimStart]. intros H.
  apply andb_true_iff in H as [Hc Hs]. now rewrite Hc, IH.
Qed.

Lemma trimStart_skip (ws s : jsstring) :
  forallb WhiteSpace ws = true -> trimStart (ws ++ s) = trimStart s.
Proof.
  induction ws as [|c ws IH]; [reflexivity|]. cbn [forallb trimStart app].
  intros H. apply andb_true_iff in H as [Hc Hs]. now rewrite Hc, IH.
Qed.

Lemma trimStart_app_cases (a b : jsstring) :
  trimStart (a ++ b)
  = match trimStart a with
    | [] => trimStart b
    | t => t ++ b
    end.
Proof.
  induction a as [|c a IH]; [reflexivity|].
  cbn [app trimStart]. now destruct (WhiteSpace c).
Qed.

Lemma trimEnd_skip (s ws : jsstring) :
  forallb WhiteSpace ws = true -> trimEnd (s ++ ws) = trimEnd s.
Proof.
  intros H. unfold trimEnd. rewrite rev_app_distr, trimStart_skip; [reflexivity|].
  rewrite forallb_forall in *. intros c Hc. apply H. now apply in_rev.
Qed.

Lemma trim_skip (ws1 s ws2 : jsstring) :
  forallb WhiteSpace ws1 = true -> forallb WhiteSpace ws2 = true ->
  trim (ws1 ++ s ++ ws2) = trim s.
Proof.
  intros H1 H2. unfold trim.
  rewrite trimStart_skip by assumption.
  rewrite trimStart_app_cases.
  destruct (trimStart s) as [|c t] eqn:E.
  - now rewrite trimStart_all.
  - now apply trimEnd_skip.
Qed.

(** ** More on splitting *)

Section SplitJoin.
Variable sep : code_unit.



Lemma length_split (s : jsstring) :
  List.length (split sep s) = S (count_occ N.eq_dec s sep).
Proof.
  induction s as [|c s IH]; [reflexivity|].
  pose proof (split_nonempty sep s) as Hne.
  destruct (N.eq_dec c sep) as [->|Hc].
  - rewrite split_cons_sep, count_occ_cons_eq by reflexivity.
    cbn [List.length]. now rewrite IH.
  - rewrite split_cons_other, count_occ_cons_neq by assumption.
    destruct (split sep s) as [|seg segs]; [contradiction|].
    cbn [hd tl List.length] in *. exact IH.
Qed.
Lemma count_occ_skip (b s : jsstring) :
  ~ In sep b -> count_occ N.eq_dec (b ++ s) sep = count_occ N.eq_dec s sep.
Proof.
  induction b as [|c b IH]; intros Hb; [reflexivity|].
  cbn [app]. rewrite count_occ_cons_neq by (intros ->; apply Hb; now left).
  apply IH. intros H. apply Hb. now right.
Qed.
End SplitJoin.


Lemma length_removelast {A} (l : list A) :
  List.length (removelast l) = pred (List.length l).
Proof.
  induction l as [|x l IH]; [reflexivity|].
  cbn [removelast]. destruct l; [reflexivity|].
  cbn [List.length] in *. now rewrite IH.
Qed.

Lemma parse_lines_length (clock : nat -> Z) (i : nat) (lines : list jsstring) :
  (List.length (parse_lines clock i lines) <= List.length lines)%nat.
Proof.
  revert i. induction lines as [|line rest IH]; intros i; [constructor|].
  cbn [parse_lines List.length]. specialize (IH (S i)).
  destruct (parseTelemetry (clock i) line); cbn [List.length]; lia.
Qed.

(** ** More on the stream decoder *)

(** X5. White space around a message does not change what
    [parseTelemetry] returns; so a line that ends in a carriage return
    before its line feed is decoded like the line without it, and [feed]
    gives the same records and buffer for ["\r\n"] as for ["\n"]. *)
Theorem surrounding_whitespace_ignored
        (decode : Uint8Array -> jsstring) (clock : nat -> Z) :
  (forall now message ws1 ws2,
      forallb WhiteSpace ws1 = true ->
      forallb WhiteSpace ws2 = true ->
      parseTelemetry now (ws1 ++ message ++ ws2) = parseTelemetry now message)
  /\ (forall this line,
         ~ In LF (buffer this ++ line) ->
         feed decode clock this (OfString (line ++ [13; LF]))
         = feed decode clock this (OfString (line ++ [LF]))).
Proof.
  assert (Hws : forall now message ws1 ws2,
             forallb WhiteSpace ws1 = true ->
             forallb WhiteSpace ws2 = true ->
             parseTelemetry now (ws1 ++ message ++ ws2) = parseTelemetry now message).
  { intros now message ws1 ws2 H1 H2. unfold parseTelemetry.
    now rewrite trim_skip. }
  split; [exact Hws|].
  intros this line Hb. unfold feed. cbn beta iota.
  assert (Hb' : ~ In LF ((buffer this ++ line) ++ [13])).
  { rewrite in_app_iff. intros [H|[H|[]]]; [now apply Hb|discriminate]. }
  replace (buffer this ++ line ++ [13; LF])
    with (((buffer this ++ line) ++ [13]) ++ LF :: [])
    by now rewrite <- !app_assoc.
  replace (buffer this ++ line ++ [LF])
    with ((buffer this ++ line) ++ LF :: [])
    by now rewrite <- !app_assoc.
  rewrite !split_line by assumption.
  cbn [split removelast last parse_lines].
  specialize (Hws (clock 0%nat) (buffer this ++ line) [] [13] eq_refl eq_refl).
  cbn [app] in Hws. now rewrite Hws.
Qed.

Lemma surrounding_whitespace_ignored_witness :
  feed (fun _ => []) (fun _ => 7%Z) new_TelemetryStreamParser
       (OfString (js "Motor: Stop  Speed: 0.00 Anomaly: 0%" ++ [13; LF]))
  = feed (fun _ => []) (fun _ => 7%Z) new_TelemetryStreamParser
         (OfString (js "Motor: Stop  Speed: 0.00 Anomaly: 0%" ++ [LF])).
Proof.
  apply (proj2 (surrounding_whitespace_ignored (fun _ => []) (fun _ => 7%Z))).
  intros H. vm_compute in H.
  repeat (destruct H as [H|H]; [discriminate H|]). exact H.
Defined.

(** X6. The buffer never holds a line terminator: not after a call of
    [feed], on a string or on bytes and from any state, and so not after
    any number of calls from a state that holds none, as the fresh and
    the reset parser do. *)
Theorem buffer_holds_no_terminator
        (decode : Uint8Array -> jsstring) (this : TelemetryStreamParser) :
  (forall clock data,
      ~ In LF (getBuffer (snd (feed decode clock this data))))
  /\ (forall calls,
         ~ In LF (getBuffer this) ->
         ~ In LF (getBuffer (snd (feed_all decode this calls)))).
Proof.
  split.
  - intros clock data. apply feed_buffer_ok.
  - intros calls. revert this.
    induction calls as [|[clock data] calls IH]; intros this Hb; [exact Hb|].
    cbn [feed_all].
    pose proof (feed_buffer_ok decode clock this data) as H1.
    destruct (feed decode clock this data) as [frames this1].
    specialize (IH this1 H1).
    now destruct (feed_all decode this1 calls).
Qed.

Lemma buffer_holds_no_terminator_witness :
  ~ In LF (getBuffer (snd (feed_all (fun _ => []) new_TelemetryStreamParser
                             [(fun _ => 7%Z, OfString (js "Motor: Ru"));
                              (fun _ => 7%Z, OfString (LF :: js "Motor:"))]))).
Proof.
  apply (proj2 (buffer_holds_no_terminator (fun _ => []) new_TelemetryStreamParser)).
  intros [].
Defined.


(** X8. Without a line terminator in the chunk there is no record: the
    chunk is appended to the buffer and nothing else happens, however
    complete the buffered text looks. *)
Theorem no_terminator_no_record
        (decode : Uint8Array -> jsstring) (clock : nat -> Z)
        (this : TelemetryStreamParser) (s : jsstring) :
  ~ In LF (getBuffer this) ->
  ~ In LF s ->
  feed decode clock this (OfString s) = ([], {| buffer := buffer this ++ s |}).
Proof.
  intros Hb Hs. unfold feed. cbn beta iota.
  rewrite split_no_sep; [reflexivity|].
  rewrite in_app_iff. intros [H|H]; [now apply Hb|now apply Hs].
Qed.

Lemma no_terminator_no_record_witness :
  feed (fun _ => []) (fun _ => 7%Z) new_TelemetryStreamParser
       (OfString (js "Motor: Stop  Speed: 0.00 Anomaly: 0%"))
  = ([], {| buffer := js "Motor: Stop  Speed: 0.00 Anomaly: 0%" |}).
Proof.
  apply (no_terminator_no_record (fun _ => []) (fun _ => 7%Z)
           new_TelemetryStreamParser).
  - intros [].
  - intros H. vm_compute in H.
    repeat (destruct H as [H|H]; [discriminate H|]). exact H.
Defined.

(** X9. A call of [feed] returns at most one record for each line
    terminator in its chunk. *)
Theorem records_bounded_by_terminators
        (decode : Uint8Array -> jsstring) (clock : nat -> Z)
        (this : TelemetryStreamParser) (s : jsstring) :
  ~ In LF (getBuffer this) ->
  (List.length (fst (feed decode clock this (OfString s)))
   <= count_occ N.eq_dec s LF)%nat.
Proof.
  intros Hb. unfold feed. cbn [fst].
  pose proof (parse_lines_length clock 0
                (removelast (split LF (buffer this ++ s)))) as H.
  now rewrite length_removelast, length_split, count_occ_skip in H.
Qed.

Lemma records_bounded_by_terminators_witness :
  (List.length
     (fst (feed (fun _ => []) (fun _ => 7%Z) new_TelemetryStreamParser
             (OfString (js "Motor: Stop  Speed: 0.00 Anomaly: 0%" ++ [LF]
                        ++ js "Motor: Stop  Speed: 0.00"))))
   <= count_occ N.eq_dec
        (js "Motor: Stop  Speed: 0.00 Anomaly: 0%" ++ [LF]
         ++ js "Motor: Stop  Speed: 0.00") LF)%nat.
Proof.
  apply (records_bounded_by_terminators (fun _ => []) (fun _ => 7%Z)
           new_TelemetryStreamParser).
  intros [].
Defined.

(** X10. From any state, with any text in the buffer, a call of [feed] on
    two strings joined gives the records of a call on the first followed
    by a call on the second, and the same buffer: the decoder may be cut
    into at any point of a stream, not only at its start. *)
Theorem feed_composes
        (decode : Uint8Array -> jsstring) (c c1 c2 : nat -> Z)
        (this : TelemetryStreamParser) (s1 s2 : jsstring) :
  let joined := feed decode c this (OfString (s1 ++ s2)) in
  let first := feed decode c1 this (OfString s1) in
  let second := feed decode c2 (snd first) (OfString s2) in
  map reading (fst joined) = map reading (fst first) ++ map reading (fst second)
  /\ getBuffer (snd joined) = getBuffer (snd second).
Proof.
  destruct (feed_app decode c c1 c2 this s1 s2) as [Hr Hs].
  cbn zeta in *. now rewrite Hr, Hs, map_app.
Qed.

(** ** The test message, written and read back *)

Section TestMessage.
Import Formatting.
Variable Number_toString : number -> jsstring.
Local Open Scope Z_scope.

Lemma fixed2_tokens (n : Z) :
  0 <= n <= 2500 ->
  run DigitOrDot (fixed_text 2 n) = true /\ speed_ok (fixed_text 2 n) = true.
Proof.
  intros Hn.
  assert (H : forallb (fun k => let t := fixed_text 2 (Z.of_nat k) in
                               run DigitOrDot t && speed_ok t)
                      (List.seq 0 2501) = true) by (vm_compute; reflexivity).
  rewrite forallb_forall in H.
  specialize (H (Z.to_nat n)). cbn zeta in H.
  rewrite Z2Nat.id in H by lia.
  apply andb_true_iff, H, in_seq. lia.
Qed.

Lemma percent_tokens (n : Z) :
  0 <= n <= 100 ->
  ToString Number_toString (of_Z n) = decimal_Z n
  /\ run Digit (decimal_Z n) = true
  /\ percent_ok (decimal_Z n) = true
  /\ parseInt10 (decimal_Z n) = of_Z n.
Proof.
  intros Hn.
  assert (H : exists k : nat, (k <= 100)%nat /\ n = Z.of_nat k)
    by (exists (Z.to_nat n); lia).
  destruct H as (k & Hk & ->). clear Hn.
  do 101 (destruct k as [|k]; [repeat split; vm_compute; reflexivity|]). lia.
Qed.

(** A finite value that is not above 25 has exponent at most -48, and at
    that exponent a mantissa not above that of 25. *)
Lemma le_25_finite (m : positive) (e : Z) :
  SFltb (S754_finite false 7036874417766400 (-48)) (S754_finite false m e) = false ->
  e <= -48 /\ (e = -48 -> Zpos m <= 7036874417766400).
Proof.
  unfold SFltb, SFcompare. intros H.
  destruct (Z.compare_spec (-48) e) as [E|E|E]; [|discriminate H|lia].
  subst e. split; [lia|]. intros _.
  change (Pos.compare_cont Eq 7036874417766400 m)
    with (Z.compare 7036874417766400 (Zpos m)) in H.
  destruct (Z.compare_spec 7036874417766400 (Zpos m)) as [E|E|E];
    [|discriminate H|]; clear H.
  - rewrite <- E. apply Z.le_refl.
  - apply Z.lt_le_incl, E.
Qed.

(** A binary64 value from 0 to 25 prints, with two decimals, as one of
    the 2501 texts from 0.00 to 25.00. *)
Lemma toFixed2_bounded (x : number) :
  valid_binary prec emax x = true ->
  isNaN x = false -> lt x (of_Z 0) = false -> gt x (of_Z 25) = false ->
  exists n, 0 <= n <= 2500 /\ toFixed Number_toString 2 x = fixed_text 2 n.
Proof.
  intros Hv Hnan Hlt Hgt.
  assert (E25 : of_Z 25 = S754_finite false 7036874417766400 (-48))
    by (vm_compute; reflexivity).
  change (of_Z 0) with (S754_zero false) in Hlt.
  rewrite E25 in Hgt. clear E25. unfold gt, lt in *.
  destruct x as [s|s| |s m e].
  - exists 0. split; [lia|reflexivity].
  - destruct s; [discriminate Hlt|discriminate Hgt].
  - discriminate Hnan.
  - destruct s; [discriminate Hlt|]. clear Hnan Hlt.
    apply le_25_finite in Hgt as [He1 He2].
    cbn [valid_binary] in Hv. unfold bounded, canonical_mantissa in Hv.
    apply andb_true_iff in Hv as [Hc _]. apply Z.eqb_eq in Hc.
    pose proof (digits2_pos_bounds m) as Hd.
    set (D := Zpos (digits2_pos m)) in *.
    assert (HD : D <= 53) by (unfold fexp, emin, prec, emax in Hc; lia).
    assert (Hm : Zpos m < 2 ^ 53).
    { assert (2 ^ D <= 2 ^ 53) by (apply Z.pow_le_mono_r; lia). lia. }
    clear Hc Hd HD. clearbody D. clear D.
    destruct e as [|k|k]; [lia|lia|].
    assert (Hk : 48 <= Zpos k) by lia.
    assert (Hp : 0 < 2 ^ Zpos k) by (apply Z.pow_pos_nonneg; lia).
    assert (Hb : Zpos m <= 25 * 2 ^ Zpos k).
    { destruct (Z.eq_dec (Zpos k) 48) as [E|Hne].
      - rewrite E. specialize (He2 ltac:(lia)).
        change (2 ^ 48) with 281474976710656. lia.
      - assert (2 ^ 49 <= 2 ^ Zpos k) by (apply Z.pow_le_mono_r; lia).
        change (2 ^ 53) with (16 * 2 ^ 49) in Hm. lia. }
    clear He1 He2 Hm.
    exists (scaled_round 2 m (Zneg k)). split.
    + unfold scaled_round. change (10 ^ Z.of_nat 2) with 100.
      rewrite Z.pow_add_r by lia. change (2 ^ 1) with 2.
      split.
      * apply Z.div_pos; lia.
      * apply Z.lt_succ_r, Z.div_lt_upper_bound; lia.
    + cbn [toFixed app]. unfold at_least_1e21.
      destruct (Z.leb_spec (10 ^ 21 * 2 ^ Zpos k) (Zpos m)) as [Hbig|];
        [|reflexivity].
      change (10 ^ 21) with 1000000000000000000000 in Hbig. lia.
Qed.
Lemma no_LF_run (p : code_unit -> bool) (s : jsstring) :
  (forall c, p c = true -> c <> LF) -> forallb p s = true -> ~ In LF s.
Proof.
  intros Hp Hs Hin. rewrite forallb_forall in Hs.
  now apply (Hp LF (Hs LF Hin)).
Qed.

(** X11. A message written by [createTestTelemetry] for a known status, a
    speed from 0 to 25 and an integer percentage from 0 to 100 is read
    back by a fresh parser as exactly one record, with that status, that
    percentage and the speed as printed with two decimals, and leaves the
    buffer empty. *)
Theorem createTestTelemetry_round_trip
        (decode : Uint8Array -> jsstring) (clock : nat -> Z)
        (status : jsstring) (x : number) (n : Z) :
  In status valid_statuses ->
  valid_binary prec emax x = true ->
  isNaN x = false -> lt x (of_Z 0) = false -> gt x (of_Z 25) = false ->
  0 <= n <= 100 ->
  feed decode clock new_TelemetryStreamParser
       (OfString (createTestTelemetry Number_toString status x (of_Z n)))
  = ([ {| Telemetry.status := status;
          speed := parseFloat (toFixed Number_toString 2 x);
          rpm := div (mul (parseFloat (toFixed Number_toString 2 x)) (of_Z 60))
                     (mul (of_Z 2) Math_PI);
          anomalyPercentage := of_Z n;
          anomalyDetected := (50 <? n);
          timestamp := clock 0%nat |} ],
     new_TelemetryStreamParser).
Proof.
  intros Hst Hv Hnan Hlt Hgt Hn.
  destruct (toFixed2_bounded x Hv Hnan Hlt Hgt) as (k & Hk & Hx).
  destruct (fixed2_tokens k Hk) as [Hrun Hok].
  destruct (percent_tokens n Hn) as (Hts & Hprun & Hpok & Hpv).
  rewrite <- Hx in Hrun, Hok.
  set (sp := toFixed Number_toString 2 x) in *.
  set (l := canonical status sp (decimal_Z n)).
  assert (Htext : createTestTelemetry Number_toString status x (of_Z n)
                  = text l ++ LF :: []).
  { unfold createTestTelemetry. rewrite Hts. fold sp.
    unfold l, text, canonical.
    cbn [motor_label gap1 status_token gap2 speed_label gap3 speed_token gap4
         anomaly_label gap5 percent_token].
    rewrite <- !app_assoc. reflexivity. }
  assert (Hst' : status = js "Running" \/ status = js "Stop" \/ status = js "Error").
  { unfold valid_statuses in Hst. cbn [In] in Hst.
    destruct Hst as [<-|[<-|[<-|[]]]]; auto. }
  assert (Hwf : well_formed l = true).
  { unfold well_formed, l, canonical.
    cbn [motor_label gap1 status_token gap2 speed_label gap3 speed_token gap4
         anomaly_label gap5 percent_token].
    rewrite Hrun, Hprun.
    destruct Hst' as [E|[E|E]]; rewrite E; vm_compute; reflexivity. }
  assert (Hnl : ~ In LF (text l)).
  { unfold text, l, canonical.
    cbn [motor_label gap1 status_token gap2 speed_label gap3 speed_token gap4
         anomaly_label gap5 percent_token].
    rewrite !in_app_iff.
    assert (Hs1 : ~ In LF sp).
    { apply (no_LF_run DigitOrDot); [|now apply run_forallb].
      intros c Hc. apply DigitOrDot_range in Hc. unfold LF. lia. }
    assert (Hs2 : ~ In LF (decimal_Z n)).
    { apply (no_LF_run Digit); [|now apply run_forallb].
      intros c Hc. apply Digit_range in Hc. unfold LF. lia. }
    assert (Hs3 : ~ In LF status).
    { destruct Hst' as [E|[E|E]]; rewrite E; intros H; vm_compute in H;
        repeat (destruct H as [H|H]; [discriminate H|]); exact H. }
    assert (Hlit : forall t, In t [js "Motor:"; js " "; js "  "; js "Speed:";
                                   js "Anomaly:"; js "%"] -> ~ In LF t).
    { intros t Ht H. cbn in Ht.
      destruct Ht as [<-|[<-|[<-|[<-|[<-|[<-|[]]]]]]]; vm_compute in H;
        repeat (destruct H as [H|H]; [discriminate H|]); exact H. }
    intros H.
    repeat (destruct H as [H|H];
            [first [now apply Hs1 in H | now apply Hs2 in H | now apply Hs3 in H
                   | apply Hlit in H; [exact H|cbn; tauto]]|]).
    apply Hlit in H; [exact H|cbn; tauto]. }
  rewrite Htext. unfold feed.
  cbn [buffer new_TelemetryStreamParser app].
  rewrite (split_line LF (text l) [] Hnl).
  cbn [split removelast last parse_lines].
  rewrite (parseTelemetry_text (clock 0%nat) l Hwf).
  unfold checked, l, canonical.
  cbn [status_token speed_token percent_token].
  apply includes_In in Hst. rewrite Hst, Hok, Hpok. cbn [andb].
  unfold decoded. rewrite Hpv, (gt_50_integer n Hn). reflexivity.
Qed.

End TestMessage.

Lemma createTestTelemetry_round_trip_witness :
  feed (fun _ => []) (fun _ => 7%Z) new_TelemetryStreamParser
       (OfString (Formatting.createTestTelemetry (fun _ => []) (js "Running")
                    (parseFloat (js "15.5")) (of_Z 5%Z)))
  = ([ {| Telemetry.status := js "Running";
          speed := parseFloat (Formatting.toFixed (fun _ => []) 2
                                 (parseFloat (js "15.5")));
          rpm := div (mul (parseFloat (Formatting.toFixed (fun _ => []) 2
                                         (parseFloat (js "15.5")))) (of_Z 60%Z))
                     (mul (of_Z 2%Z) Math_PI);
          anomalyPercentage := of_Z 5%Z;
          anomalyDetected := (50 <? 5)%Z;
          timestamp := 7%Z |} ],
     new_TelemetryStreamParser).
Proof.
  apply (createTestTelemetry_round_trip (fun _ => []) (fun _ => []) (fun _ => 7%Z)
           (js "Running") (parseFloat (js "15.5")) 5%Z);
    try (vm_compute; reflexivity).
  - left. reflexivity.
  - lia.
Defined.

(* ================================================================== *)
(** * Part IV. The page component and the native service               *)
(* ================================================================== *)

(** ** The debug console's messages *)



Section DebugLog.
Import DebugConsole Page.




Lemma length_slice_last {A} (n : nat) (l : list A) :
  List.length (slice_last n l) = Nat.min n (List.length l).
Proof. unfold slice_last. rewrite length_skipn. lia. Qed.

Lemma core_ok_ext (st st' : State) :
  debugMessages st' = debugMessages st ->
  debugMessageIdRef st' = debugMessageIdRef st ->
  core_ok st -> core_ok st'.
Proof.
  unfold core_ok, log_ok. intros -> ->. tauto.
Qed.

Lemma addDebugMessage_log_ok (now : Z) (ty : MessageType) (d : jsstring)
      (r : option Uint8Array) (st : State) :
  log_ok st -> core_ok (addDebugMessage now ty d r st).
Proof.
  intros (first & Hids & Hc). split.
  - cbn [addDebugMessage debugMessages]. rewrite length_app, length_slice_last.
    cbn [List.length]. lia.
  - set (len := List.length (debugMessages st)) in *.
    set (k := (len - 99)%nat).
    exists (first + k)%nat.
    cbn [addDebugMessage debugMessages debugMessageIdRef].
    rewrite length_app, length_slice_last. fold len. cbn [List.length].
    split; [|lia].
    rewrite map_app. unfold slice_last. fold len. fold k.
    rewrite <- skipn_map, Hids, skipn_map, skipn_seq.
    cbn [map DebugConsole.id].
    replace (Nat.min 99 len + 1)%nat with (S (len - k)) by lia.
    rewrite seq_S, map_app. cbn [map]. do 2 f_equal.
    fold (message_id (debugMessageIdRef st)). f_equal. lia.
Qed.

Lemma sendCommand_core_ok (now : Z) (command : jsstring) (st : State) :
  core_ok st -> core_ok (fst (sendCommand now command st)).
Proof.
  intros H. unfold sendCommand.
  assert (Hs : forall e, core_ok (setError e st))
    by (intros e; now apply (core_ok_ext st)).
  destruct (characteristicRef st) as [ch|]; [|apply Hs].
  destruct (connected st); cbn [negb]; [|apply Hs].
  destruct H as [_ H].
  destruct (writeValue ch _); cbn [fst].
  - apply (core_ok_ext (addDebugMessage now sent command None st));
      [reflexivity|reflexivity|]. now apply addDebugMessage_log_ok.
  - now apply addDebugMessage_log_ok.
Qed.

Lemma sendCommand_connection (now : Z) (command : jsstring) (st : State) :
  connected (fst (sendCommand now command st)) = connected st
  /\ characteristicRef (fst (sendCommand now command st)) = characteristicRef st.
Proof.
  unfold sendCommand.
  destruct (characteristicRef st) as [ch|] eqn:E; [|now rewrite <- E].
  destruct (connected st) eqn:Ec; cbn [negb]; [|now rewrite <- E].
  now destruct (writeValue ch _).
Qed.

Lemma sendCommand_writes (now : Z) (command : jsstring) (st : State) :
  snd (sendCommand now command st)
  = if connected st
    then match characteristicRef st with
         | Some _ => [TextEncoder_encode command ++ [LF]]
         | None => []
         end
    else [].
Proof.
  unfold sendCommand.
  destruct (characteristicRef st) as [ch|]; [|now destruct (connected st)].
  destruct (connected st); cbn [negb]; [|reflexivity].
  rewrite TextEncoder_encode_LF. now destruct (writeValue ch _).
Qed.

Section Runs.
Variable decode : Uint8Array -> jsstring.

Lemma last_cons {A} (x : A) (l : list A) (d : A) :
  last (x :: l) d = last l x.
Proof.
  revert x d. induction l as [|y l IH]; intros x d; [reflexivity|].
  change (last (x :: y :: l) d) with (last (y :: l) d).
  now rewrite !IH.
Qed.

Lemma show_frames_last (frames : list MotorTelemetry) (shown : MotorTelemetry) :
  show_frames frames shown = last frames shown.
Proof.
  unfold show_frames. revert shown.
  induction frames as [|t frames IH]; intros shown; [reflexivity|].
  cbn [fold_left]. now rewrite IH, last_cons.
Qed.

Lemma last_app_default {A} (l1 l2 : list A) (d : A) :
  last (l1 ++ l2) d = last l2 (last l1 d).
Proof.
  revert d. induction l1 as [|x l1 IH]; intros d; [reflexivity|].
  cbn [app]. now rewrite !last_cons, IH.
Qed.

Lemma read_loop_spec (chunks : list ((nat -> Z) * Uint8Array)) (c : Component) :
  let r := feed_all decode (telemetryParserRef c) (byte_calls chunks) in
  read_loop decode chunks c
  = {| core := core c;
       currentMode := currentMode c;
       motorState := last (fst r) (motorState c);
       connectionStatus := connectionStatus c;
       autoShutoffEnabled := autoShutoffEnabled c;
       readerRef := readerRef c;
       telemetryParserRef := snd r |}.
Proof.
  revert c. induction chunks as [|[clock value] chunks IH]; intros c.
  - now destruct c.
  - cbn [read_loop byte_calls map feed_all fst snd].
    destruct (feed decode clock (telemetryParserRef c) (OfBytes value))
      as [frames parser] eqn:Ef.
    rewrite IH. cbn [core currentMode motorState connectionStatus
                     autoShutoffEnabled readerRef telemetryParserRef].
    fold (byte_calls chunks).
    destruct (feed_all decode parser (byte_calls chunks)) as [frames' parser'].
    cbn [fst snd]. now rewrite show_frames_last, last_app_default.
Qed.


Lemma lt_30_integer (n : Z) :
  (0 <= n <= 100)%Z -> lt (of_Z n) (of_Z 30) = (n <? 30)%Z.
Proof.
  intros Hn.
  assert (H : exists k : nat, (k <= 100)%nat /\ n = Z.of_nat k)
    by (exists (Z.to_nat n); lia).
  destruct H as (k & Hk & ->). clear Hn.
  do 101 (destruct k as [|k]; [vm_compute; reflexivity|]). lia.
Qed.

Lemma lt_70_integer (n : Z) :
  (0 <= n <= 100)%Z -> lt (of_Z n) (of_Z 70) = (n <? 70)%Z.
Proof.
  intros Hn.
  assert (H : exists k : nat, (k <= 100)%nat /\ n = Z.of_nat k)
    by (exists (Z.to_nat n); lia).
  destruct H as (k & Hk & ->). clear Hn.
  do 101 (destruct k as [|k]; [vm_compute; reflexivity|]). lia.
Qed.

Lemma label_integer (n : Z) :
  (0 <= n <= 100)%Z -> anomaly_label_text (of_Z n) = label_of n.
Proof.
  intros Hn. unfold anomaly_label_text, label_of.
  now rewrite lt_30_integer, lt_70_integer.
Qed.

(** Every record the decoder returns is one that can be shown. *)
Lemma parseTelemetry_record_ok (now : Z) (message : jsstring) (r : MotorTelemetry) :
  parseTelemetry now message = Some r -> record_ok r.
Proof.
  intros H.
  destruct (parseTelemetry_inv now message r H)
    as (pre & l & post & _ & Hwf & _ & Hc).
  unfold checked in Hc.
  destruct (includes valid_statuses (status_token l)) eqn:Hst;
    [|discriminate Hc].
  destruct (speed_ok (speed_token l)) eqn:Hsp; [|discriminate Hc].
  destruct (percent_ok (percent_token l)) eqn:Hpc; [|discriminate Hc].
  cbn [andb] in Hc. injection Hc as <-.
  unfold record_ok.
  cbn [decoded status anomalyPercentage anomalyDetected speed].
  unfold well_formed in Hwf. split_andb.
  unfold speed_ok in Hsp. apply negb_true_iff in Hsp.
  apply orb_false_iff in Hsp as [Hsp Hgt].
  apply orb_false_iff in Hsp as [Hnan Hlt].
  split; [now apply includes_In|].
  split; [assumption|]. split; [assumption|]. split; [assumption|].
  exists (digits_value (percent_token l)).
  pose proof (percent_ok_range _ ltac:(eassumption) Hpc) as Hn.
  rewrite parseInt10_digits by assumption.
  split; [assumption|]. split; [reflexivity|].
  split; [now apply gt_50_integer|now apply label_integer].
Qed.

Lemma parse_lines_record_ok (clock : nat -> Z) (i : nat) (lines : list jsstring) :
  Forall record_ok (parse_lines clock i lines).
Proof.
  revert i. induction lines as [|line lines IH]; intros i; [constructor|].
  cbn [parse_lines].
  destruct (parseTelemetry (clock i) line) as [r|] eqn:E; [|apply IH].
  constructor; [now apply (parseTelemetry_record_ok (clock i) line)|apply IH].
Qed.

Lemma feed_record_ok (clock : nat -> Z) (this : TelemetryStreamParser)
      (data : FeedData) :
  Forall record_ok (fst (feed decode clock this data)).
Proof. apply parse_lines_record_ok. Qed.

Lemma feed_all_record_ok (this : TelemetryStreamParser)
      (calls : list ((nat -> Z) * FeedData)) :
  Forall record_ok (fst (feed_all decode this calls)).
Proof.
  revert this. induction calls as [|[clock data] calls IH]; intros this;
    [constructor|].
  cbn [feed_all].
  pose proof (feed_record_ok clock this data) as H1.
  destruct (feed decode clock this data) as [frames this1].
  specialize (IH this1).
  destruct (feed_all decode this1 calls) as [frames' this2].
  cbn [fst] in *. now apply Forall_app.
Qed.

Lemma last_Forall {A} (P : A -> Prop) (l : list A) (d : A) :
  Forall P l -> P d -> P (last l d).
Proof.
  intros Hl. revert d. induction Hl as [|x l Hx Hl IH]; intros d Hd;
    [assumption|].
  rewrite last_cons. now apply IH.
Qed.

Lemma mount_ok (now : Z) : component_ok (mount now).
Proof.
  split; [split|split; [|split]].
  - cbn. lia.
  - exists 0%nat. split; reflexivity.
  - intros H. discriminate H.
  - reflexivity.
  - unfold record_ok. cbn [mount motorState status speed anomalyPercentage
                           anomalyDetected].
    split; [right; left; reflexivity|].
    repeat (split; [vm_compute; reflexivity|]).
    exists 0%Z. split; [lia|]. split; [reflexivity|].
    split; vm_compute; reflexivity.
Qed.

Lemma sendCommand_ok (now : Z) (command : jsstring) (c : Component)
      (mode : MotorMode) (flag : bool) :
  component_ok c ->
  component_ok {| core := fst (sendCommand now command (core c));
                  currentMode := mode;
                  motorState := motorState c;
                  connectionStatus := connectionStatus c;
                  autoShutoffEnabled := flag;
                  readerRef := readerRef c;
                  telemetryParserRef := telemetryParserRef c |}.
Proof.
  intros (Hlog & Hch & Hcs & Hr).
  destruct (sendCommand_connection now command (core c)) as [E1 E2].
  unfold component_ok.
  cbn [core connectionStatus motorState]. rewrite E1, E2.
  split; [now apply sendCommand_core_ok|]. tauto.
Qed.

Lemma handle_ok (call : Call) (c : Component) :
  component_ok c -> component_ok (fst (handle decode call c)).
Proof.
  intros H. pose proof H as (Hlog & Hch & Hcs & Hr).
  destruct call as [attempt readable|clock value|now clock value|now mode|now
                   |cancel stopNotifications| ];
    cbn [handle fst].
  - assert (H1 : component_ok (connectBluetooth attempt c)).
    { destruct attempt as [err|ch err|ch];
        (split; [exact Hlog|split; [|split; [reflexivity|exact Hr]]]);
        cbn; intros E; congruence. }
    destruct attempt as [err|ch err|ch]; try exact H1.
    destruct readable as [chunks|]; cbn [startReading]; [|exact H1].
    rewrite read_loop_spec.
    destruct H1 as (H1 & H2 & H3 & H4).
    split; [exact H1|]. split; [exact H2|]. split; [exact H3|].
    cbn [motorState]. apply last_Forall; [apply feed_all_record_ok|exact H4].
  - rewrite read_loop_spec.
    split; [exact Hlog|]. split; [exact Hch|]. split; [exact Hcs|].
    cbn [motorState]. apply last_Forall; [apply feed_all_record_ok|exact Hr].
  - destruct value as [value|]; cbn [handleCharacteristicChange]; [|exact H].
    pose proof (feed_record_ok clock (telemetryParserRef c)
                  (OfBytes (view_bytes value))) as Hf.
    destruct (feed decode clock (telemetryParserRef c) (OfBytes (view_bytes value)))
      as [frames parser].
    cbn [fst] in Hf.
    assert (Hshow : record_ok (show_frames frames (motorState c))).
    { rewrite show_frames_last. now apply last_Forall. }
    destruct (trim (decode (buffer_bytes value))) as [|x dataStr].
    + split; [exact Hlog|]. split; [exact Hch|]. split; [exact Hcs|exact Hshow].
    + split; [apply addDebugMessage_log_ok, Hlog|].
      split; [exact Hch|]. split; [exact Hcs|exact Hshow].
  - unfold setMotorMode.
    pose proof (sendCommand_ok now (mode_command mode) c mode
                  (autoShutoffEnabled c) H) as Hs.
    now destruct (sendCommand now (mode_command mode) (core c)).
  - unfold toggleAutoShutoff.
    pose proof (sendCommand_ok now
                  (autoShutoff_command (negb (autoShutoffEnabled c))) c
                  (currentMode c) (negb (autoShutoffEnabled c)) H) as Hs.
    now destruct (sendCommand now _ (core c)).
  - unfold disconnectBluetooth.
    destruct (if readerRef c then cancel else None); [exact H|].
    destruct (match characteristicRef (core c) with
              | Some _ => stopNotifications
              | None => None
              end); [exact H|].
    split; [exact Hlog|]. split; [|split; [reflexivity|exact Hr]].
    cbn. intros E. discriminate E.
  - split; [|split; [exact Hch|split; [exact Hcs|exact Hr]]].
    split; [cbn; lia|]. exists 0%nat. split; reflexivity.
Qed.

Lemma run_cons (call : Call) (calls : list Call) (c : Component) :
  run decode (call :: calls) c
  = (fst (run decode calls (fst (handle decode call c))),
     snd (handle decode call c)
       ++ snd (run decode calls (fst (handle decode call c)))).
Proof.
  cbn [run]. destruct (handle decode call c) as [c1 w1]. cbn [fst snd].
  now destruct (run decode calls c1).
Qed.

Lemma run_ok (calls : list Call) (c : Component) :
  component_ok c -> component_ok (fst (run decode calls c)).
Proof.
  revert c. induction calls as [|call calls IH]; intros c H; [exact H|].
  rewrite run_cons. cbn [fst]. now apply IH, handle_ok.
Qed.

Lemma token_ascii (command : jsstring) :
  In command command_tokens -> TextEncoder_encode command = command.
Proof.
  intros H. apply TextEncoder_encode_ascii. cbn in H.
  destruct H as [<-|[<-|[<-|[<-|[<-|[]]]]]]; reflexivity.
Qed.

Lemma mode_command_token (mode : MotorMode) :
  In (mode_command mode) command_tokens.
Proof. destruct mode; cbn; tauto. Qed.

Lemma autoShutoff_command_token (newState : bool) :
  In (autoShutoff_command newState) command_tokens.
Proof. destruct newState; cbn; tauto. Qed.

Lemma handle_writes (call : Call) (c : Component) :
  snd (handle decode call c)
  = match call with
    | call_setMotorMode _ mode =>
        snd (sendCommand 0 (mode_command mode) (core c))
    | call_toggleAutoShutoff _ =>
        snd (sendCommand 0 (autoShutoff_command (negb (autoShutoffEnabled c)))
               (core c))
    | _ => []
    end.
Proof.
  destruct call; cbn [handle snd]; try reflexivity.
  - unfold setMotorMode. rewrite (sendCommand_writes 0), <- (sendCommand_writes now).
    now destruct (sendCommand now (mode_command mode) (core c)).
  - unfold toggleAutoShutoff.
    rewrite (sendCommand_writes 0), <- (sendCommand_writes now).
    now destruct (sendCommand now _ (core c)).
Qed.

Lemma handle_connected (call : Call) (c : Component) :
  establishes call = false ->
  connected (core c) = false ->
  connected (core (fst (handle decode call c))) = false.
Proof.
  intros He Hc.
  destruct call as [attempt readable|clock value|now clock value|now mode|now
                   |cancel stopNotifications| ];
    cbn [handle fst].
  - destruct attempt; [reflexivity|reflexivity|discriminate He].
  - now rewrite read_loop_spec.
  - destruct value as [value|]; cbn [handleCharacteristicChange]; [|exact Hc].
    destruct (feed decode clock _ _).
    now destruct (trim (decode (buffer_bytes value))).
  - unfold setMotorMode.
    pose proof (proj1 (sendCommand_connection now (mode_command mode) (core c))).
    destruct (sendCommand now (mode_command mode) (core c)). cbn in *. congruence.
  - unfold toggleAutoShutoff.
    pose proof (proj1 (sendCommand_connection now
      (autoShutoff_command (negb (autoShutoffEnabled c))) (core c))).
    destruct (sendCommand now _ (core c)). cbn in *. congruence.
  - unfold disconnectBluetooth.
    destruct (if readerRef c then cancel else None); [exact Hc|].
    now destruct (match characteristicRef (core c) with
                  | Some _ => stopNotifications
                  | None => None
                  end).
  - exact Hc.
Qed.



(** X14. The only byte arrays the component ever hands to the transport
    are the five command lines: a command token followed by one line
    feed. *)
Theorem only_command_lines_written (calls : list Call) (c : Component) :
  Forall (fun data => exists command,
              In command command_tokens /\ data = command ++ [LF])
         (snd (run decode calls c)).
Proof.
  revert c. induction calls as [|call calls IH]; intros c; [constructor|].
  rewrite run_cons. cbn [snd]. apply Forall_app. split; [|apply IH].
  rewrite handle_writes.
  destruct call; try constructor; rewrite sendCommand_writes;
    destruct (connected (core c)); try constructor;
    destruct (characteristicRef (core c)); constructor; try constructor.
  - exists (mode_command mode).
    split; [apply mode_command_token|].
    now rewrite token_ascii by apply mode_command_token.
  - exists (autoShutoff_command (negb (autoShutoffEnabled c))).
    split; [apply autoShutoff_command_token|].
    now rewrite token_ascii by apply autoShutoff_command_token.
Qed.

(** X15. From a component that is not marked connected, calls among
    which no connection attempt gets through write nothing to the
    transport and leave the component not connected. *)
Theorem no_write_without_connection (calls : list Call) (c : Component) :
  connected (core c) = false ->
  existsb establishes calls = false ->
  snd (run decode calls c) = []
  /\ connected (core (fst (run decode calls c))) = false.
Proof.
  revert c. induction calls as [|call calls IH]; intros c Hc He;
    [now split|].
  cbn [existsb] in He. apply orb_false_iff in He as [He1 He2].
  rewrite run_cons. cbn [fst snd].
  destruct (IH _ (handle_connected call c He1 Hc) He2) as [-> ->].
  split; [|reflexivity]. rewrite app_nil_r, handle_writes.
  destruct call; try reflexivity; now rewrite sendCommand_writes, Hc.
Qed.


(** X17. While the component is not marked connected, [setMotorMode]
    still records the requested mode and [toggleAutoShutoff] still flips
    the flag, although nothing is written; each sets the error to
    ["Not connected to device"] and changes nothing else. *)
Theorem state_changes_without_device (now : Z) (mode : MotorMode) (c : Component) :
  connected (core c) = false ->
  setMotorMode now mode c
  = ({| core := setError (Some (js "Not connected to device")) (core c);
        currentMode := mode;
        motorState := motorState c;
        connectionStatus := connectionStatus c;
        autoShutoffEnabled := autoShutoffEnabled c;
        readerRef := readerRef c;
        telemetryParserRef := telemetryParserRef c |}, [])
  /\ toggleAutoShutoff now c
     = ({| core := setError (Some (js "Not connected to device")) (core c);
           currentMode := currentMode c;
           motorState := motorState c;
           connectionStatus := connectionStatus c;
           autoShutoffEnabled := negb (autoShutoffEnabled c);
           readerRef := readerRef c;
           telemetryParserRef := telemetryParserRef c |}, []).
Proof.
  intros Hc.
  assert (Hs : forall command,
             sendCommand now command (core c)
             = (setError (Some (js "Not connected to device")) (core c), [])).
  { intros command. unfold sendCommand. rewrite Hc.
    now destruct (characteristicRef (core c)). }
  unfold setMotorMode, toggleAutoShutoff. now rewrite !Hs.
Qed.

(** X18. A command is logged as sent before the write is attempted: with
    a characteristic and connected, [sendCommand] appends the message
    numbered by the counter, stamped with the clock and marked sent,
    whether or not the transport accepts the write; a rejected write
    leaves that entry in place and sets the error to the message of the
    rejection, or to ["Failed to send command"] when it carries none; an
    accepted write leaves the error as it was. *)
Theorem rejected_write_still_logged
        (now : Z) (command : jsstring) (st : State)
        (ch : BluetoothRemoteGATTCharacteristic) :
  characteristicRef st = Some ch ->
  connected st = true ->
  let st' := fst (sendCommand now command st) in
  debugMessages st'
  = slice_last 99 (debugMessages st)
      ++ [ {| DebugConsole.id := message_id (debugMessageIdRef st);
              DebugConsole.timestamp := now;
              type := sent;
              data := command;
              raw := None |} ]
  /\ debugMessageIdRef st' = S (debugMessageIdRef st)
  /\ error st'
     = match writeValue ch (TextEncoder_encode command ++ [LF]) with
       | None => error st
       | Some err => Some (error_message err (js "Failed to send command"))
       end.
Proof.
  intros Hch Hc. unfold sendCommand. rewrite Hch, Hc. cbn [negb].
  rewrite TextEncoder_encode_LF.
  now destruct (writeValue ch _) as [[message|]|].
Qed.

(** X19. While a reader delivers chunks, the loop of [startReading]
    changes the record on display and the decoder only: it leaves the
    decoder as one call of [feed] per chunk leaves it, and shows the last
    record those calls return, or the record shown before when they
    return none. *)
Theorem reading_shows_last_record
        (chunks : list ((nat -> Z) * Uint8Array)) (c : Component) :
  let r := feed_all decode (telemetryParserRef c) (byte_calls chunks) in
  read_loop decode chunks c
  = {| core := core c;
       currentMode := currentMode c;
       motorState := last (fst r) (motorState c);
       connectionStatus := connectionStatus c;
       autoShutoffEnabled := autoShutoffEnabled c;
       readerRef := readerRef c;
       telemetryParserRef := snd r |}.
Proof. apply read_loop_spec. Qed.

(** X20. Whatever arrives and whatever handlers are called after the
    mount, the record on display always has a known status, a speed from
    0 to 25 and an integer percentage from 0 to 100; the anomaly flag is
    set exactly from 51 on, and the label under the percentage is
    ["Normal"] below 30, ["Warning"] from 30 to 69 and ["Critical"] from
    70 on, so that ["Critical"] is never shown without the flag and
    ["Normal"] never with it. *)
Theorem display_always_valid (calls : list Call) (now : Z) :
  let r := motorState (fst (run decode calls (mount now))) in
  In (status r) valid_statuses
  /\ isNaN (speed r) = false
  /\ lt (speed r) (of_Z 0) = false
  /\ gt (speed r) (of_Z 25) = false
  /\ exists n : Z,
      (0 <= n <= 100)%Z
      /\ anomalyPercentage r = of_Z n
      /\ anomalyDetected r = (50 <? n)%Z
      /\ anomaly_label_text (anomalyPercentage r) = label_of n
      /\ (label_of n = js "Critical" -> anomalyDetected r = true)
      /\ (label_of n = js "Normal" -> anomalyDetected r = false).
Proof.
  destruct (run_ok calls (mount now) (mount_ok now))
    as (_ & _ & _ & Hst & Hnan & Hlt & Hgt & n & Hn & Hp & Hd & Hl).
  cbn zeta. repeat (split; [assumption|]).
  exists n. repeat (split; [assumption|]).
  rewrite Hd. unfold label_of.
  destruct (Z.ltb_spec n 30);
    [split; [intros E; discriminate E|intros _; apply Z.ltb_ge; lia]|].
  destruct (Z.ltb_spec n 70); split; intros E; try discriminate E.
  apply Z.ltb_lt. lia.
Qed.

End Runs.
End DebugLog.

Lemma no_write_without_connection_witness :
  snd (Page.run (fun bytes => bytes)
         [Page.call_setMotorMode 1 high;
          Page.call_toggleAutoShutoff 2;
          Page.call_connectBluetooth (Page.Refused ThrownOther) None;
          Page.call_setMotorMode 3 low]
         (Page.mount 0)) = []
  /\ connected (Page.core (fst (Page.run (fun bytes => bytes)
         [Page.call_setMotorMode 1 high;
          Page.call_toggleAutoShutoff 2;
          Page.call_connectBluetooth (Page.Refused ThrownOther) None;
          Page.call_setMotorMode 3 low]
         (Page.mount 0)))) = false.
Proof.
  apply no_write_without_connection; reflexivity.
Defined.


Lemma state_changes_without_device_witness :
  Page.currentMode (fst (Page.setMotorMode 1 high (Page.mount 0))) = high
  /\ snd (Page.setMotorMode 1 high (Page.mount 0)) = []
  /\ Page.autoShutoffEnabled (fst (Page.toggleAutoShutoff 1 (Page.mount 0))) = true
  /\ snd (Page.toggleAutoShutoff 1 (Page.mount 0)) = [].
Proof.
  destruct (state_changes_without_device 1 high (Page.mount 0) eq_refl)
    as [-> ->].
  repeat split.
Defined.

Lemma rejected_write_still_logged_witness :
  let ch := {| writeValue := fun _ => Some (ThrownError (js "GATT operation failed")) |} in
  let st := {| connected := true; error := None; debugMessages := [];
               characteristicRef := Some ch; debugMessageIdRef := 3 |} in
  map DebugConsole.id (debugMessages (fst (sendCommand 7 (js "M20") st)))
  = [js "msg-3"]
  /\ error (fst (sendCommand 7 (js "M20") st)) = Some (js "GATT operation failed").
Proof.
  intros ch st.
  destruct (rejected_write_still_logged 7 (js "M20") st ch eq_refl eq_refl)
    as (-> & _ & ->).
  split; reflexivity.
Defined.

(** ** The native Bluetooth service *)

Section Service.
Import NativeBluetooth.

Lemma Map_get_set (m : DeviceMap) (k : jsstring) (v : BluetoothDevice)
      (k' : jsstring) :
  Map_get (Map_set m k v) k'
  = if string_eq_dec k k' then Some v else Map_get m k'.
Proof.
  induction m as [|[k0 v0] m IH]; cbn [Map_set Map_get]; [reflexivity|].
  destruct (string_eq_dec k0 k) as [->|Hne]; cbn [Map_get].
  - now destruct (string_eq_dec k k').
  - destruct (string_eq_dec k0 k') as [->|]; [|apply IH].
    destruct (string_eq_dec k k'); congruence.
Qed.

Lemma Map_set_key (m : DeviceMap) (k : jsstring) (v : BluetoothDevice)
      (x : jsstring) :
  In x (map fst (Map_set m k v)) <-> x = k \/ In x (map fst m).
Proof.
  induction m as [|[k0 v0] m IH]; cbn [Map_set map fst In].
  - intuition congruence.
  - destruct (string_eq_dec k0 k) as [->|Hne]; cbn [map fst In].
    + intuition congruence.
    + rewrite IH. tauto.
Qed.

Lemma Map_set_keys_distinct (m : DeviceMap) (k : jsstring) (v : BluetoothDevice) :
  keys_distinct m -> keys_distinct (Map_set m k v).
Proof.
  unfold keys_distinct.
  induction m as [|[k0 v0] m IH]; cbn [Map_set map fst]; intros H.
  - constructor; [intros []|constructor].
  - inversion H as [|? ? Hin Hnd]; subst.
    destruct (string_eq_dec k0 k) as [->|Hne]; cbn [map fst];
      [now constructor|].
    constructor; [|now apply IH].
    rewrite Map_set_key. intros [E|Hk]; [congruence|contradiction].
Qed.

Lemma Map_set_keyed (m : DeviceMap) (device : BluetoothDevice) :
  keyed_by_id m -> keyed_by_id (Map_set m (id device) device).
Proof.
  unfold keyed_by_id.
  induction m as [|[k0 v0] m IH]; cbn [Map_set]; intros H.
  - now repeat constructor.
  - inversion H as [|? ? Hk Hm]; subst.
    destruct (string_eq_dec k0 (id device)) as [E|Hne].
    + now constructor.
    + constructor; [assumption|now apply IH].
Qed.

Lemma keyed_ids (m : DeviceMap) :
  keyed_by_id m -> map id (map snd m) = map fst m.
Proof.
  induction 1 as [|[k v] m Hk Hm IH]; [reflexivity|].
  cbn [map fst snd] in *. now rewrite IH, Hk.
Qed.

Lemma Map_get_In (m : DeviceMap) (d : BluetoothDevice) :
  keyed_by_id m -> keys_distinct m ->
  (In d (map snd m) <-> Map_get m (id d) = Some d).
Proof.
  unfold keys_distinct.
  induction 1 as [|[k v] m Hk Hm IH]; intros Hnd; cbn [map snd fst Map_get In] in *.
  - split; [intros []|intros E; discriminate E].
  - inversion Hnd as [|? ? Hin Hnd']; subst.
    destruct (string_eq_dec (id v) (id d)) as [E|Hne].
    + split; [|intros H; injection H as ->; now left].
      intros [->|Hd]; [reflexivity|]. exfalso. apply Hin.
      rewrite <- (keyed_ids m Hm), E. now apply in_map, Hd.
    + rewrite <- (IH Hnd'). split; [|tauto].
      intros [->|Hd]; [congruence|assumption].
Qed.

Lemma discover_cons (d : BluetoothDevice) (devices : list BluetoothDevice)
      (this : NativeBluetoothService) :
  discover (d :: devices) this = discover devices (onDeviceDiscovered d this).
Proof. reflexivity. Qed.

Lemma discover_fields (devices : list BluetoothDevice)
      (this : NativeBluetoothService) :
  isScanning (discover devices this) = isScanning this
  /\ connectedDevice (discover devices this) = connectedDevice this.
Proof.
  revert this. induction devices as [|d devices IH]; intros this; [now split|].
  rewrite discover_cons. destruct (IH (onDeviceDiscovered d this)) as [-> ->].
  now split.
Qed.

Lemma discover_entries (devices : list BluetoothDevice)
      (this : NativeBluetoothService) :
  keyed_by_id (discoveredDevices this) ->
  keys_distinct (discoveredDevices this) ->
  keyed_by_id (discoveredDevices (discover devices this))
  /\ keys_distinct (discoveredDevices (discover devices this)).
Proof.
  revert this. induction devices as [|d devices IH]; intros this Hk Hd;
    [now split|].
  rewrite discover_cons. apply IH; cbn [onDeviceDiscovered discoveredDevices].
  - now apply Map_set_keyed.
  - now apply Map_set_keys_distinct.
Qed.

Lemma discover_get (devices : list BluetoothDevice)
      (this : NativeBluetoothService) (key : jsstring) :
  Map_get (discoveredDevices (discover devices this)) key
  = match last_with_id key devices with
    | Some d => Some d
    | None => Map_get (discoveredDevices this) key
    end.
Proof.
  revert this. induction devices as [|d devices IH]; intros this;
    [reflexivity|].
  rewrite discover_cons, IH. cbn [last_with_id].
  destruct (last_with_id key devices); [reflexivity|].
  cbn [onDeviceDiscovered discoveredDevices]. rewrite Map_get_set.
  now destruct (string_eq_dec (id d) key).
Qed.

(** What holds of the service whatever is called: it knows no device but
    the mock one. *)
Lemma handle_mock_only (call : Call) (p : Process) :
  (discoveredDevices (service p) = []
   \/ discoveredDevices (service p) = [(id mock_device, mock_device)]) ->
  (connectedDevice (service p) = None
   \/ connectedDevice (service p) = Some mock_device) ->
  (discoveredDevices (service (handle call p)) = []
   \/ discoveredDevices (service (handle call p))
      = [(id mock_device, mock_device)])
  /\ (connectedDevice (service (handle call p)) = None
      \/ connectedDevice (service (handle call p)) = Some mock_device).
Proof.
  intros Hd Hc. destruct call as [| | |deviceId|]; cbn [handle].
  - unfold startScan. destruct (isScanning (service p)); cbn; tauto.
  - destruct (timers p); [tauto|].
    cbn [service discovery_timeout onDeviceDiscovered discoveredDevices
         connectedDevice].
    split; [right|exact Hc].
    destruct Hd as [->| ->]; cbn [Map_set]; [reflexivity|].
    now destruct (string_eq_dec (id mock_device) (id mock_device)).
  - unfold stopScan. destruct (isScanning (service p)); cbn; tauto.
  - cbn [service]. unfold ipc_connect, connect.
    destruct Hd as [E|E]; rewrite E; cbn [Map_get].
    + cbn [snd]. rewrite E. tauto.
    + destruct (string_eq_dec (id mock_device) deviceId); cbn; [tauto|].
      rewrite E. tauto.
  - unfold disconnect. cbn [service].
    destruct (connectedDevice (service p)) eqn:E; cbn; [tauto|].
    rewrite E. tauto.
Qed.

Lemma run_mock_only (calls : list Call) (p : Process) :
  (discoveredDevices (service p) = []
   \/ discoveredDevices (service p) = [(id mock_device, mock_device)]) ->
  (connectedDevice (service p) = None
   \/ connectedDevice (service p) = Some mock_device) ->
  (discoveredDevices (service (run calls p)) = []
   \/ discoveredDevices (service (run calls p))
      = [(id mock_device, mock_device)])
  /\ (connectedDevice (service (run calls p)) = None
      \/ connectedDevice (service (run calls p)) = Some mock_device).
Proof.
  revert p. induction calls as [|call calls IH]; intros p Hd Hc; [now split|].
  destruct (handle_mock_only call p Hd Hc) as [Hd' Hc'].
  exact (IH (handle call p) Hd' Hc').
Qed.

(** X21. Devices reported to a service whose map is empty are filed under
    their identifiers: the list of discovered devices never holds two
    devices with one identifier, it holds exactly the last device
    reported under each identifier, and [connect] finds that device and
    throws [Device <id> not found] for an identifier never reported. *)
Theorem discoveries_keyed_by_id
        (devices : list BluetoothDevice) (this : NativeBluetoothService) :
  discoveredDevices this = [] ->
  let this' := discover devices this in
  NoDup (map id (getDiscoveredDevices this'))
  /\ (forall d, In d (getDiscoveredDevices this')
                <-> last_with_id (id d) devices = Some d)
  /\ (forall deviceId,
         connect deviceId this'
         = match last_with_id deviceId devices with
           | Some d =>
               Returned {| isScanning := isScanning this;
                           connectedDevice := Some d;
                           discoveredDevices := discoveredDevices this' |}
           | None => Thrown_ (js "Device " ++ deviceId ++ js " not found")
           end).
Proof.
  intros Hempty this'.
  destruct (discover_entries devices this) as [Hk Hd];
    [rewrite Hempty; constructor|rewrite Hempty; constructor|].
  fold this' in Hk, Hd. unfold getDiscoveredDevices.
  split; [now rewrite keyed_ids|]. split.
  - intros d. rewrite (Map_get_In _ d Hk Hd). unfold this'.
    rewrite discover_get, Hempty. cbn [Map_get].
    now destruct (last_with_id (id d) devices).
  - intros deviceId. unfold connect, this'.
    rewrite discover_get, Hempty. cbn [Map_get].
    destruct (last_with_id deviceId devices); [|reflexivity].
    now destruct (discover_fields devices this) as [-> _].
Qed.

(** X22. Whatever methods are called on a new service and whenever the
    discovery timers fire, the service never lists or holds a device
    other than the mock device, and the only identifier [connect] accepts
    is that of the mock device. *)
Theorem only_mock_device_known (calls : list Call) :
  let this := service (run calls new_process) in
  (getDiscoveredDevices this = [] \/ getDiscoveredDevices this = [mock_device])
  /\ (getConnectedDevice this = None
      \/ getConnectedDevice this = Some mock_device)
  /\ (forall deviceId,
         success (fst (ipc_connect deviceId this)) = true ->
         deviceId = id mock_device).
Proof.
  destruct (run_mock_only calls new_process) as [Hd Hc];
    [now left|now left|].
  cbn zeta. unfold getDiscoveredDevices, getConnectedDevice.
  split; [destruct Hd as [->| ->]; cbn; tauto|]. split; [exact Hc|].
  intros deviceId. unfold ipc_connect, connect.
  destruct Hd as [->| ->]; cbn [Map_get]; [intros H; discriminate H|].
  destruct (string_eq_dec (id mock_device) deviceId) as [<-|];
    [reflexivity|intros H; discriminate H].
Qed.

(** X23. A scan started while none is in progress sets the discovery
    timer and forgets every device discovered before, but keeps the
    connection: until the timer fires, [connect] is refused for every
    identifier with [Device <id> not found] and leaves the service as it
    is, while the connected device is still reported. *)
Theorem fresh_scan_forgets_devices (this : NativeBluetoothService) :
  isScanning this = false ->
  let this' := fst (startScan this) in
  snd (startScan this) = true
  /\ getDiscoveredDevices this' = []
  /\ getConnectedDevice this' = getConnectedDevice this
  /\ (forall deviceId,
         ipc_connect deviceId this'
         = ({| success := false;
               reply_error := Some (js "Device " ++ deviceId ++ js " not found");
               payload := None |}, this')).
Proof.
  intros H. unfold startScan. rewrite H. cbn. repeat split.
Qed.

(** X24. After a [connect] that succeeded, writing, reading and
    subscribing all succeed, a read returning no bytes; after the
    [disconnect] that follows, each of them fails with
    [Not connected to any device]. *)
Theorem io_follows_connection
        (deviceId serviceUuid characteristicUuid : jsstring)
        (data : Uint8Array) (this : NativeBluetoothService) :
  success (fst (ipc_connect deviceId this)) = true ->
  let this' := snd (ipc_connect deviceId this) in
  let refused {A} : Reply A :=
    {| success := false;
       reply_error := Some (js "Not connected to any device");
       payload := None |} in
  ipc_write serviceUuid characteristicUuid data this'
  = {| success := true; reply_error := None; payload := Some tt |}
  /\ ipc_read serviceUuid characteristicUuid this'
     = {| success := true; reply_error := None; payload := Some [] |}
  /\ subscribeToNotifications serviceUuid characteristicUuid this' = Returned tt
  /\ ipc_write serviceUuid characteristicUuid data (disconnect this') = refused
  /\ ipc_read serviceUuid characteristicUuid (disconnect this') = refused
  /\ subscribeToNotifications serviceUuid characteristicUuid (disconnect this')
     = Thrown_ (js "Not connected to any device").
Proof.
  unfold ipc_connect, connect.
  destruct (Map_get (discoveredDevices this) deviceId) as [device|];
    [|intros H; discriminate H].
  intros _. cbn. repeat split.
Qed.

End Service.

Lemma discoveries_keyed_by_id_witness :
  let other := {| NativeBluetooth.id := js "aa:bb";
                  NativeBluetooth.name := js "MG24";
                  NativeBluetooth.rssi := (-70)%Z |} in
  let nearer := {| NativeBluetooth.id := js "aa:bb";
                   NativeBluetooth.name := js "MG24";
                   NativeBluetooth.rssi := (-40)%Z |} in
  let this' := NativeBluetooth.discover
                 [other; NativeBluetooth.mock_device; nearer]
                 NativeBluetooth.new_service in
  NoDup (map NativeBluetooth.id (NativeBluetooth.getDiscoveredDevices this'))
  /\ NativeBluetooth.getDiscoveredDevices this'
     = [nearer; NativeBluetooth.mock_device].
Proof.
  intros other nearer this'.
  split; [|reflexivity].
  exact (proj1 (discoveries_keyed_by_id
                  [other; NativeBluetooth.mock_device; nearer]
                  NativeBluetooth.new_service eq_refl)).
Defined.

Lemma fresh_scan_forgets_devices_witness :
  let this := {| NativeBluetooth.isScanning := false;
                 NativeBluetooth.connectedDevice := Some NativeBluetooth.mock_device;
                 NativeBluetooth.discoveredDevices :=
                   [(js "mock-device-001", NativeBluetooth.mock_device)] |} in
  NativeBluetooth.getDiscoveredDevices (fst (NativeBluetooth.startScan this)) = []
  /\ NativeBluetooth.getConnectedDevice (fst (NativeBluetooth.startScan this))
     = Some NativeBluetooth.mock_device.
Proof.
  intros this.
  destruct (fresh_scan_forgets_devices this eq_refl) as (_ & H1 & H2 & _).
  split; [exact H1|exact H2].
Defined.

Lemma io_follows_connection_witness :
  let this := NativeBluetooth.discovery_timeout
                (fst (NativeBluetooth.startScan NativeBluetooth.new_service)) in
  let this' := snd (NativeBluetooth.ipc_connect (js "mock-device-001") this) in
  NativeBluetooth.ipc_read (js "s") (js "c") this'
  = {| NativeBluetooth.success := true;
       NativeBluetooth.reply_error := None;
       NativeBluetooth.payload := Some [] |}
  /\ NativeBluetooth.ipc_read (js "s") (js "c") (NativeBluetooth.disconnect this')
     = {| NativeBluetooth.success := false;
          NativeBluetooth.reply_error := Some (js "Not connected to any device");
          NativeBluetooth.payload := None |}.
Proof.
  intros this this'.
  destruct (io_follows_connection (js "mock-device-001") (js "s") (js "c") []
              this eq_refl) as (_ & H1 & _ & _ & H2 & _).
  split; [exact H1|exact H2].
Defined.
